(** * A like-bot for a social-media site: ledger, navigation, discovery,
      action executor and run orchestrator

    Shallow embedding of [src/bot.js] and [src/helper.js].

    - JavaScript strings are [string]; [split], [includes], [startsWith] and
      the global regular-expression replace of [robustGoto] are written out.
    - The ledger object [processed] is a record whose [liked] field is a
      finite map from property keys to booleans (a JS object used as a map);
      reading a key it does not have gives what every object inherits.
    - JS numbers that only ever hold counts are [Z]; the numbers of
      [calculateBackoff] are exact rationals [Q].
    - The browser page is an explicit state that is threaded through every
      call; what the site answers is a script carried by that state.  The
      page stays open: of the browser calls that nothing catches on the
      spot, [goto], the counts of the locators and the real click can
      reject; [page.evaluate] and [waitForTimeout] do not.
    - The selectors of [likeTweetById] are built from the URL without
      escaping.  For a URL that a CSS string holds as it is they are the
      two attribute tests they are written to be; for any other URL the
      page says what the selector engine makes of them.
    - Loops that the source cannot bound ([while] in [collectTweetIds] and in
      [processUrl]) take fuel; the act loop hands back the run so far when
      the fuel is spent. *)

From Stdlib Require Import ZArith QArith Qround Qminmax Qpower Lia Lqa Ascii String.
From stdpp Require Import base option list gmap strings.

Local Open Scope Z_scope.

(** * The program *)

(** ** JavaScript string primitives *)

Module Js.

(** [s.startsWith(p)] *)
Definition startsWith (p s : string) : bool := String.prefix p s.

(** [s.includes(p)] *)
Fixpoint includes (p s : string) : bool :=
  match s with
  | EmptyString => String.prefix p EmptyString
  | String _ s' => String.prefix p s || includes p s'
  end.

(** [s.split(sep)] for a non-empty separator: the pieces between the
    non-overlapping occurrences of [sep], scanned from the left.  [skip]
    counts the characters of a matched separator still to be dropped and
    [cur] is the piece being built. *)
Fixpoint split_go (sep : string) (skip : nat) (cur s : string) : list string :=
  match s with
  | EmptyString => [cur]
  | String c s' =>
      match skip with
      | S k => split_go sep k cur s'
      | O =>
          if String.prefix sep s
          then cur :: split_go sep (String.length sep - 1) EmptyString s'
          else split_go sep 0 (cur +:+ String c EmptyString) s'
      end
  end.

Definition split (sep s : string) : list string := split_go sep 0 EmptyString s.

(** [s.replace(/pat/g, rep)] for a pattern that is a plain non-empty
    string (the regular expression [/x\.com/g] matches exactly "x.com"). *)
Fixpoint replace_go (pat rep : string) (skip : nat) (s : string) : string :=
  match s with
  | EmptyString => EmptyString
  | String c s' =>
      match skip with
      | S k => replace_go pat rep k s'
      | O =>
          if String.prefix pat s
          then rep +:+ replace_go pat rep (String.length pat - 1) s'
          else String c (replace_go pat rep 0 s')
      end
  end.

Definition replaceAll (pat rep s : string) : string := replace_go pat rep 0 s.

(** A decimal digit, as matched by [\d]. *)
Definition is_digit (c : ascii) : bool :=
  let n := nat_of_ascii c in (48 <=? n)%nat && (n <=? 57)%nat.

Fixpoint all_digits (s : string) : bool :=
  match s with
  | EmptyString => true
  | String c s' => is_digit c && all_digits s'
  end.

(** The longest run of digits at the head of [s] (what [(\d+)] captures
    once the match position is fixed). *)
Fixpoint take_digits (s : string) : string :=
  match s with
  | EmptyString => EmptyString
  | String c s' => if is_digit c then String c (take_digits s') else EmptyString
  end.

(** [s.match(/\/status\/(\d+)/)]: the capture group of the leftmost
    match, [None] when there is no match. *)
Fixpoint match_status_digits (s : string) : option string :=
  match s with
  | EmptyString => None
  | String _ s' =>
      let here :=
        if String.prefix "/status/" s
        then match take_digits (String.substring 8 (String.length s) s) with
             | EmptyString => None
             | d => Some d
             end
        else None in
      match here with
      | Some d => Some d
      | None => match_status_digits s'
      end
  end.

(** Truthiness of a possibly [undefined] string. *)
Definition truthy (o : option string) : bool :=
  match o with
  | Some (String _ _) => true
  | _ => false
  end.

(** The property key an object lookup [obj[k]] uses: [undefined] is
    coerced to the string "undefined". *)
Definition prop_key (o : option string) : string := default "undefined" o.

End Js.

(** ** Ledger store (bot.js, [loadProcessed]) *)

Record Ledger := mkLedger {
  liked : gmap string bool;
  dayCount : Z;
  dayStart : string
}.

(** What [fs.pathExists] and [fs.readJson] find at [PROCESSED_FILE]. *)
Inductive LedgerFile :=
| FileAbsent
| FileUnreadable
| FileJson (data : Ledger).

Definition zero_ledger : Ledger :=
  {| liked := ∅; dayCount := 0; dayStart := "" |}.

(** The value of [processed] after the [try] block of [loadProcessed]. *)
Definition read_ledger (f : LedgerFile) : Ledger :=
  match f with
  | FileJson data => data
  | FileAbsent | FileUnreadable => zero_ledger
  end.

(** [new Date().toISOString().split('T')[0]], from the ISO timestamp. *)
Definition today_of (iso : string) : string :=
  default "" (Js.split "T" iso !! 0%nat).

Definition loadProcessed (f : LedgerFile) (iso_now : string) : Ledger :=
  let processed := read_ledger f in
  let today := today_of iso_now in
  if bool_decide (dayStart processed ≠ today)
  then {| liked := liked processed; dayCount := 0; dayStart := today |}
  else processed.

(** ** Status identifier (bot.js, lines 246, 359, 393) *)

(** [url.split('/status/')[1]?.split('?')[0]] *)
Definition statusIdOf (url : string) : option string :=
  p ← Js.split "/status/" url !! 1%nat;
  Js.split "?" p !! 0%nat.


(** ** Backoff (helper.js) *)

(** [Math.floor(Math.random() * (max - min + 1)) + min]; [rnd] is the value
    [Math.random()] returned, a number in the interval from 0 (included) to
    1 (excluded). *)
Definition randomBetween (rnd : Q) (min max : Q) : Q :=
  (inject_Z (Qfloor (rnd * (max - min + 1))) + min)%Q.

Definition calculateBackoff (rnd : Q) (attempt : Z) : Q :=
  let baseDelay := 1000%Q in
  let maxDelay := 60000%Q in
  let exponentialDelay := Qmin (baseDelay * Qpower 2 attempt) maxDelay in
  let jitter := randomBetween rnd 0 (exponentialDelay * (3 # 10)) in
  (exponentialDelay + jitter)%Q.

(** ** The browser page

    The page is the state every function below threads through.  Besides the
    DOM it carries what the site will answer to the next navigations, scrolls,
    rate-limit probes and clicks (scripts, consumed from the head), what the
    selector engine makes of a selector it is not written for, and three
    ghost fields recording what was done to it. *)

(** What a [throw] carries: an [Error] object (every rejection of the
    browser API is one) or the value [null]. *)
Inductive Thrown :=
| Error (message : string)
| Null.

(** [a || b] on thrown values: [null] is the only falsy one. *)
Definition or_else (a b : Thrown) : Thrown :=
  match a with
  | Null => b
  | Error _ => a
  end.

Inductive Outcome (A : Type) :=
| Returns (a : A)
| Throws (e : Thrown).
Arguments Returns {A} a.
Arguments Throws {A} e.

Record Anchor := mkAnchor {
  attr_href : string;   (* the [href] attribute, what CSS selectors see *)
  href : string         (* the resolved [link.href] *)
}.

Record Element := mkElement {
  is_article : bool;                     (* tag name [article] *)
  is_tweet : bool;                       (* [data-testid="tweet"] *)
  anchors : list Anchor;                 (* descendant anchors, document order *)
  ancestor_tweet : option (list Anchor); (* anchors of the nearest proper
                                            ancestor with [data-testid="tweet"] *)
  unlike : list bool                     (* visibility of each descendant
                                            [data-testid="unlike"] *)
}.

Inductive NavOutcome :=
| NavLoaded (d : list Element) (h : Z) (login : bool)
| NavFailed (message : string).

Inductive ClickOutcome :=
| ClickDone
| ClickFailed (message : string).

(** What the locators of [likeTweetById] come to when they are counted:
    the selector is refused (the count rejects), or a target is at hand,
    possibly none. *)
Inductive Answer :=
| Refuses (message : string)
| Finds (target : option (list Element)).

Record Page := mkPage {
  dom : list Element;
  scrollHeight : Z;                               (* [document.body.scrollHeight] *)
  login_wall : bool;                              (* what [isLoginPage] finds *)
  on_goto : list NavOutcome;                      (* next [goto] + [waitForSelector] *)
  on_scroll : list (list Element * Z);            (* DOM and height after each scroll *)
  on_probe : list bool;                           (* next answers of [isRateLimited] *)
  on_click : list (ClickOutcome * list Element);  (* next real clicks, DOM afterwards *)
  on_locate : string → list Element → Answer;     (* the selector engine on a URL that
                                                     is not a plain CSS string, over
                                                     a DOM *)
  visited : list string;                          (* ghost: URLs given to [page.goto] *)
  clicks : nat;                                   (* ghost: real clicks performed *)
  landed : nat                                    (* ghost: real clicks that resolved *)
}.

(** [page.goto(url)] followed by [page.waitForSelector(...)].  A page whose
    script is used up does not answer: the wait times out. *)
Definition navigate (url : string) (p : Page) : Outcome unit * Page :=
  match on_goto p with
  | NavLoaded d h login :: rest =>
      (Returns (), {| dom := d; scrollHeight := h; login_wall := login;
                      on_goto := rest; on_scroll := on_scroll p;
                      on_probe := on_probe p; on_click := on_click p;
                      visited := visited p ++ [url]; clicks := clicks p;
                      on_locate := on_locate p; landed := landed p |})
  | NavFailed m :: rest =>
      (Throws (Error m), {| dom := dom p; scrollHeight := scrollHeight p;
                    login_wall := login_wall p;
                    on_goto := rest; on_scroll := on_scroll p;
                    on_probe := on_probe p; on_click := on_click p;
                    visited := visited p ++ [url]; clicks := clicks p;
                    on_locate := on_locate p; landed := landed p |})
  | [] =>
      (Throws (Error "Timeout"),
       {| dom := dom p; scrollHeight := scrollHeight p;
          login_wall := login_wall p;
          on_goto := []; on_scroll := on_scroll p;
          on_probe := on_probe p; on_click := on_click p;
          visited := visited p ++ [url]; clicks := clicks p;
          on_locate := on_locate p; landed := landed p |})
  end.

(** [page.evaluate(amount => window.scrollBy(0, amount), scrollAmount)].  A
    page whose script is used up has nothing more to load. *)
Definition scrollBy (p : Page) : Page :=
  match on_scroll p with
  | (d, h) :: rest =>
      {| dom := d; scrollHeight := h; login_wall := login_wall p;
         on_goto := on_goto p; on_scroll := rest;
         on_probe := on_probe p; on_click := on_click p;
         visited := visited p; clicks := clicks p;
         on_locate := on_locate p; landed := landed p |}
  | [] => p
  end.

(** helper.js [isLoginPage] and [isRateLimited]: both catch every error. *)
Definition isLoginPage (p : Page) : bool := login_wall p.

Definition isRateLimited (p : Page) : bool * Page :=
  match on_probe p with
  | b :: rest =>
      (b, {| dom := dom p; scrollHeight := scrollHeight p;
             login_wall := login_wall p;
             on_goto := on_goto p; on_scroll := on_scroll p;
             on_probe := rest; on_click := on_click p;
             visited := visited p; clicks := clicks p;
             on_locate := on_locate p; landed := landed p |})
  | [] => (false, p)
  end.

(** [likeBtn.click({ timeout: 5000 })], the real click; its rejection is
    not caught on the spot.  The DOM that comes with the outcome is the one
    the next query sees. *)
Definition click (p : Page) : Outcome unit * Page :=
  match on_click p with
  | (o, d) :: rest =>
      (match o with ClickDone => Returns () | ClickFailed m => Throws (Error m) end,
       {| dom := d; scrollHeight := scrollHeight p; login_wall := login_wall p;
          on_goto := on_goto p; on_scroll := on_scroll p;
          on_probe := on_probe p; on_click := rest;
          visited := visited p; clicks := S (clicks p);
          on_locate := on_locate p;
          landed := match o with
                    | ClickDone => S (landed p)
                    | ClickFailed _ => landed p
                    end |})
  | [] =>
      (Throws (Error "Timeout"),
       {| dom := dom p; scrollHeight := scrollHeight p; login_wall := login_wall p;
          on_goto := on_goto p; on_scroll := on_scroll p;
          on_probe := on_probe p; on_click := [];
          visited := visited p; clicks := S (clicks p);
          on_locate := on_locate p; landed := landed p |})
  end.

(** ** Navigation controller (bot.js, [robustGoto]) *)

(** The [for] loop over [attempt]: [n] iterations are left.  The result is
    [inl ()] when an attempt succeeded ([return true]) and otherwise
    [inr lastError]. *)
Fixpoint goto_attempts (n : nat) (url : string) (lastError : Thrown)
    (p : Page) : (unit + Thrown) * Page :=
  match n with
  | O => (inr lastError, p)
  | S n' =>
      match navigate url p with
      | (Returns _, p') => (inl (), p')
      | (Throws error, p') => goto_attempts n' url error p'
      end
  end.

Definition fallbackUrl (url : string) : string :=
  Js.replaceAll "x.com" "twitter.com" url.

Definition robustGoto (url : string) (p : Page) : Outcome bool * Page :=
  let maxRetries := 2%nat in
  match goto_attempts maxRetries url Null p with
  | (inl _, p1) => (Returns true, p1)
  | (inr lastError, p1) =>
      if Js.includes "x.com" url then
        let twitterUrl := fallbackUrl url in
        match navigate twitterUrl p1 with
        | (Returns _, p2) => (Returns true, p2)
        | (Throws error, p2) => (Throws (or_else lastError error), p2)
        end
      else (Throws lastError, p1)
  end.

(** ** Content discovery (bot.js, [collectTweetIds]) *)

(** The selector [a[href*="/status/"]]. *)
Definition status_anchor (a : Anchor) : bool :=
  Js.includes "/status/" (attr_href a).

(** The two [return] expressions on an [href] that passed the test:
    relative references get the site prefix, query parameters are cut. *)
Definition clean_href (h : string) : string :=
  let base := default "" (Js.split "?" h !! 0%nat) in
  if Js.startsWith "/" h then "https://x.com" +:+ base else base.

(** [href && href.includes('/status/')] *)
Definition usable_href (h : string) : bool :=
  Js.truthy (Some h) && Js.includes "/status/" h.

Definition extractStatusUrlFn (element : Element) : option string :=
  let direct :=
    match List.filter status_anchor (anchors element) with
    | statusLink :: _ =>
        if usable_href (href statusLink)
        then Some (clean_href (href statusLink)) else None
    | [] => None
    end in
  match direct with
  | Some u => Some u
  | None =>
      (* element.closest('[data-testid="tweet"]') || element *)
      let tweet :=
        if is_tweet element then anchors element
        else default (anchors element) (ancestor_tweet element) in
      let allLinks := List.filter status_anchor tweet in
      match List.filter (fun link => usable_href (href link)) allLinks with
      | link :: _ => Some (clean_href (href link))
      | [] => None
      end
  end.

(** helper.js [findTweetId]: the digits after "/status/" in the [href]
    attribute of the first status link of the element, else of the first
    status link of the enclosing tweet that has some.  [processUrl] does not
    call it. *)
Definition findTweetId (tweetElement : Element) : option string :=
  let direct :=
    match List.filter status_anchor (anchors tweetElement) with
    | statusLink :: _ => Js.match_status_digits (attr_href statusLink)
    | [] => None
    end in
  match direct with
  | Some id => Some id
  | None =>
      let tweet :=
        if is_tweet tweetElement then anchors tweetElement
        else default (anchors tweetElement) (ancestor_tweet tweetElement) in
      let allLinks := List.filter status_anchor tweet in
      head (omap (fun link => Js.match_status_digits (attr_href link)) allLinks)
  end.

(** [tweetUrls.add(statusUrl)] on a [Set], kept in insertion order as
    [Array.from] returns it. *)
Definition set_add (u : string) (urls : list string) : list string :=
  if bool_decide (u ∈ urls) then urls else urls ++ [u].

(** [for (const element of elements)] with its [break]. *)
Fixpoint scan_elements (maxScan : Z) (elements : list Element)
    (tweetUrls : list string) : list string :=
  match elements with
  | [] => tweetUrls
  | element :: rest =>
      if maxScan <=? Z.of_nat (length tweetUrls) then tweetUrls
      else
        let tweetUrls' :=
          match extractStatusUrlFn element with
          | Some statusUrl =>
              if Js.truthy (Some statusUrl) then set_add statusUrl tweetUrls
              else tweetUrls
          | None => tweetUrls
          end in
        scan_elements maxScan rest tweetUrls'
  end.

(** [page.$$(selector)] for the two entries of [tweetSelectors]. *)
Definition query_all (by_testid : bool) (p : Page) : list Element :=
  List.filter (fun e => if by_testid then is_tweet e else is_article e) (dom p).

Definition MAX_NO_CHANGE : Z := 3.

Record Scan := mkScan {
  tweetUrlSet : list string;
  lastHeight : Z;
  noChangeCount : Z
}.

(** The loop test of [collectTweetIds]. *)
Definition scan_goes_on (maxScan : Z) (s : Scan) : bool :=
  (Z.of_nat (length (tweetUrlSet s)) <? maxScan) && (noChangeCount s <? MAX_NO_CHANGE).

(** One iteration of the [while] body: both selectors, one scroll, one
    height measurement. *)
Definition scan_step (maxScan : Z) (s : Scan) (p : Page) : Scan * Page :=
  let urls1 := scan_elements maxScan (query_all true p) (tweetUrlSet s) in
  let urls2 := scan_elements maxScan (query_all false p) urls1 in
  let p' := scrollBy p in
  let currentHeight := scrollHeight p' in
  if currentHeight =? lastHeight s
  then ({| tweetUrlSet := urls2; lastHeight := lastHeight s;
           noChangeCount := noChangeCount s + 1 |}, p')
  else ({| tweetUrlSet := urls2; lastHeight := currentHeight;
           noChangeCount := 0 |}, p').

(** The [while] loop; [None] when the fuel does not suffice.  The number in
    the result counts the iterations that ran. *)
Fixpoint collect_loop (fuel : nat) (maxScan : Z) (iters : nat) (s : Scan) (p : Page)
    : option (Scan * Page * nat) :=
  if scan_goes_on maxScan s then
    match fuel with
    | O => None
    | S fuel' =>
        let '(s', p') := scan_step maxScan s p in
        collect_loop fuel' maxScan (S iters) s' p'
    end
  else Some (s, p, iters).

Definition scan_start : Scan :=
  {| tweetUrlSet := []; lastHeight := 0; noChangeCount := 0 |}.

(** In this page model a scan cannot outlast the scroll script by more than
    one iteration that sets [lastHeight] and [MAX_NO_CHANGE] that find it
    unchanged, which fixes the fuel. *)
Definition collectTweetIds (maxScan : Z) (p : Page) : option (list string * Page) :=
  match collect_loop (length (on_scroll p) + 4) maxScan 0 scan_start p with
  | Some (s, p', _) => Some (tweetUrlSet s, p')
  | None => None
  end.

(** ** Action executor (bot.js, [likeTweetById]) *)

(** The object [{ ok, already, reason }]; an absent field is [None]. *)
Record LikeResult := mkResult {
  ok : bool;
  already : option bool;
  reason : option string
}.

Definition result_not_found : LikeResult :=
  {| ok := false; already := None; reason := Some "tweet-not-found" |}.
Definition result_already : LikeResult :=
  {| ok := true; already := Some true; reason := None |}.
Definition result_liked : LikeResult :=
  {| ok := true; already := None; reason := None |}.
Definition result_click_failed : LikeResult :=
  {| ok := false; already := None; reason := Some "click-failed" |}.

(** [page.locator(`article:has(a[href="${statusUrl}"])`)] *)
Definition exact_matches (statusUrl : string) (p : Page) : list Element :=
  List.filter
    (fun e => is_article e
              && existsb (fun a => String.eqb (attr_href a) statusUrl) (anchors e))
    (dom p).

(** [page.locator(`article:has(a[href*="/status/${statusId}"])`)] *)
Definition fallback_matches (statusId : string) (p : Page) : list Element :=
  List.filter
    (fun e => is_article e
              && existsb (fun a => Js.includes ("/status/" +:+ statusId) (attr_href a))
                   (anchors e))
    (dom p).

(** [locator.first()] *)
Definition first (l : list Element) : list Element := take 1 l.

(** A character that stands for itself in a double-quoted CSS string: no
    control character, no double quote, no backslash. *)
Definition css_plain_char (c : ascii) : bool :=
  let n := nat_of_ascii c in
  (32 <=? n)%nat && negb (n =? 34)%nat && negb (n =? 92)%nat.

(** A URL that the template strings of the two locators take as it is:
    the selectors parse, and the string they test [href] against is the
    URL, or "/status/" and its identifier. *)
Fixpoint css_plain (s : string) : bool :=
  match s with
  | EmptyString => true
  | String c s' => css_plain_char c && css_plain s'
  end.

(** [(await tweet.count()) ? tweet.first() : (fallback ? fallback.first() : null)]
    for a URL that is plain. *)
Definition plain_target (statusUrl : string) (p : Page) : option (list Element) :=
  let tweet := exact_matches statusUrl p in
  let statusId := statusIdOf statusUrl in
  let fallback :=
    if Js.truthy statusId
    then Some (fallback_matches (default "" statusId) p) else None in
  if (0 <? length tweet)%nat then Some (first tweet) else first <$> fallback.

(** The two counts, [await tweet.count()] and [await target.count()].  The
    selectors are built from the URL without escaping: for a URL that is
    not plain the engine of the page says what they come to, which can be a
    rejection. *)
Definition locate (statusUrl : string) (p : Page) : Answer :=
  if css_plain statusUrl then Finds (plain_target statusUrl p)
  else on_locate p statusUrl (dom p).

(** The target at hand, none when the count rejected. *)
Definition find_target (statusUrl : string) (p : Page) : option (list Element) :=
  match locate statusUrl p with
  | Finds target => target
  | Refuses _ => None
  end.

(** The message of the rejection, when a count rejects. *)
Definition refusal (statusUrl : string) (p : Page) : option string :=
  match locate statusUrl p with
  | Finds _ => None
  | Refuses message => Some message
  end.

(** [!target || !(await target.count())] *)
Definition missing (target : option (list Element)) : bool :=
  match target with
  | None => true
  | Some t => (length t =? 0)%nat
  end.

(** [unlike.first().isVisible().catch(() => false)] inside the target. *)
Definition unlike_visible (target : option (list Element)) : bool :=
  match target with
  | Some (e :: _) => hd false (unlike e)
  | _ => false
  end.

(** The [for (let retry = 0; retry < 3; retry++)] loop, [n] iterations left.
    Scrolling into view, hovering, waiting and the trial click swallow their
    rejections and leave the page as it is.  The counts of the locators and
    the real click do not: their rejection is caught by the [catch] of the
    loop, which goes on to the next iteration or, in the last one, throws
    it. *)
Fixpoint like_retries (n : nat) (retry : Z) (statusUrl : string) (p : Page)
    : Outcome LikeResult * Page :=
  match n with
  | O => (Returns result_click_failed, p)
  | S n' =>
      match refusal statusUrl p with
      | Some message =>
          if retry <? 2 then like_retries n' (retry + 1) statusUrl p
          else (Throws (Error message), p)
      | None =>
          let freshTarget := find_target statusUrl p in
          if missing freshTarget then (Returns result_not_found, p)
          else if unlike_visible freshTarget then (Returns result_already, p)
          else
            match click p with
            | (Returns _, p') => (Returns result_liked, p')
            | (Throws error, p') =>
                if retry <? 2 then like_retries n' (retry + 1) statusUrl p'
                else (Throws error, p')
            end
      end
  end.

(** The counts before the loop are outside every [try]: their rejection is
    the rejection of the call. *)
Definition likeTweetById (statusUrl : string) (p : Page) : Outcome LikeResult * Page :=
  match refusal statusUrl p with
  | Some message => (Throws (Error message), p)
  | None =>
      let target := find_target statusUrl p in
      if missing target then (Returns result_not_found, p)
      else like_retries 3 0 statusUrl p
  end.

(** ** Run orchestrator (bot.js, [processUrl]) *)

Record Config := mkConfig {
  TWEETS_TO_LIKE : Z;
  ROWS_PER_LAUNCH : Z;
  MAX_SCAN : Z;
  DAILY_CAP : Z
}.

(** What a run does that can be seen from outside, in order: calls of the
    action executor and of [saveProcessed], the log lines of the act loop,
    and (ghost) the ledger right after each assignment to one of its
    fields. *)
Inductive Event :=
| Invoked (statusUrl : string)
| Assigned (l : Ledger)
| Saved (l : Ledger)
| LogLiked (likedCount dayCount : Z) (statusUrl : string)
| LogAlready (statusUrl : string)
| LogSkip (statusUrl : string)
| LogFailed (statusUrl : string) (reason : option string)
| LogError (statusUrl : string) (error : Thrown)
| LogDailyCap
| LogPerProfile.

(** The variables of [processUrl] while the act loop runs. *)
Record Run := mkRun {
  processed : Ledger;
  likedCount : Z;
  processedUrls : gset string;
  tweetUrls : list string;
  page : Page;
  events : list Event
}.

Definition emit (ev : Event) (r : Run) : Run :=
  {| processed := processed r; likedCount := likedCount r;
     processedUrls := processedUrls r; tweetUrls := tweetUrls r;
     page := page r; events := events r ++ [ev] |}.

Definition set_page (p : Page) (r : Run) : Run :=
  {| processed := processed r; likedCount := likedCount r;
     processedUrls := processedUrls r; tweetUrls := tweetUrls r;
     page := p; events := events r |}.

(** [processedUrls.add(statusUrl)] *)
Definition add_processed (statusUrl : string) (r : Run) : Run :=
  {| processed := processed r; likedCount := likedCount r;
     processedUrls := {[statusUrl]} ∪ processedUrls r; tweetUrls := tweetUrls r;
     page := page r; events := events r |}.

(** The property names that a plain object inherits from
    [Object.prototype]; each of them reads as a function or an object. *)
Definition inherited_key (k : string) : bool :=
  bool_decide
    (k ∈ ["constructor"; "__defineGetter__"; "__defineSetter__"; "hasOwnProperty";
          "__lookupGetter__"; "__lookupSetter__"; "isPrototypeOf";
          "propertyIsEnumerable"; "toString"; "valueOf"; "__proto__";
          "toLocaleString"]).

(** [processed.liked[statusId]] as a condition: the entry of the object
    itself when it has one, and otherwise what it inherits under that
    name, which is truthy. *)
Definition is_liked (l : Ledger) (statusId : option string) : bool :=
  match liked l !! Js.prop_key statusId with
  | Some b => b
  | None => inherited_key (Js.prop_key statusId)
  end.

(** [processed.dayCount++] *)
Definition incr_dayCount (l : Ledger) : Ledger :=
  {| liked := liked l; dayCount := dayCount l + 1; dayStart := dayStart l |}.

(** [processed.liked[statusId] = true].  Under the name "__proto__" an
    object without an entry of its own has a setter, which takes no value
    but an object: there the assignment does nothing. *)
Definition set_liked (statusId : string) (l : Ledger) : Ledger :=
  if bool_decide (statusId = "__proto__" ∧ liked l !! statusId = None) then l
  else {| liked := <[statusId := true]> (liked l);
          dayCount := dayCount l; dayStart := dayStart l |}.

(** [likedCount++; processed.dayCount++;] and the log line that follows. *)
Definition count_like (statusUrl : string) (r : Run) : Run :=
  let l := incr_dayCount (processed r) in
  {| processed := l; likedCount := likedCount r + 1;
     processedUrls := processedUrls r; tweetUrls := tweetUrls r;
     page := page r;
     events := events r ++ [Assigned l; LogLiked (likedCount r + 1) (dayCount l) statusUrl] |}.

(** [processed.liked[statusId] = true;] *)
Definition mark_liked (statusId : string) (r : Run) : Run :=
  let l := set_liked statusId (processed r) in
  {| processed := l; likedCount := likedCount r;
     processedUrls := processedUrls r; tweetUrls := tweetUrls r;
     page := page r; events := events r ++ [Assigned l] |}.

(** [result.already] as a condition. *)
Definition is_already (result : LikeResult) : bool :=
  match already result with
  | Some b => b
  | None => false
  end.

(** [saveProcessed(processed)]: the whole ledger is written to
    [PROCESSED_FILE]; a failed write is logged and swallowed, so all the run
    keeps of the call is that it was made, and with which ledger. *)
Definition saveProcessed (l : Ledger) (r : Run) : Run := emit (Saved l) r.

(** [if (await isRateLimited(page)) { ...back off... }] after a like: only
    the page moves on. *)
Definition probe_rate_limit (r : Run) : Run :=
  let '(_, p') := isRateLimited (page r) in set_page p' r.

(** The [if (result.ok) { ... } else { ... }] of the act loop, from the
    result of the action executor to the rate-limit probe. *)
Definition on_result (statusUrl : string) (statusId : option string)
    (result : LikeResult) (r : Run) : Run :=
  if ok result then
    let r1 := if is_already result then emit (LogAlready statusUrl) r
              else count_like statusUrl r in
    let r2 := if Js.truthy statusId then mark_liked (default "" statusId) r1 else r1 in
    let r3 := add_processed statusUrl r2 in
    let r4 := saveProcessed (processed r3) r3 in
    probe_rate_limit r4
  else
    add_processed statusUrl (emit (LogFailed statusUrl (reason result)) r).

(** The [catch (error)] around one item. *)
Definition on_error (statusUrl : string) (error : Thrown) (r : Run) : Run :=
  add_processed statusUrl (emit (LogError statusUrl error) r).

Inductive Flow := Continue | Break.

(** One iteration of [for (const statusUrl of remainingUrls)]. *)
Definition process_item (cfg : Config) (statusUrl : string) (r : Run) : Flow * Run :=
  if dayCount (processed r) >=? DAILY_CAP cfg then (Break, emit LogDailyCap r)
  else if likedCount r >=? TWEETS_TO_LIKE cfg then (Break, emit LogPerProfile r)
  else
    let statusId := statusIdOf statusUrl in
    if Js.truthy statusId && is_liked (processed r) statusId then
      (Continue, add_processed statusUrl (emit (LogSkip statusUrl) r))
    else
      let r0 := emit (Invoked statusUrl) r in
      match likeTweetById statusUrl (page r0) with
      | (Returns result, p') =>
          (Continue, on_result statusUrl statusId result (set_page p' r0))
      | (Throws error, p') =>
          (Continue, on_error statusUrl error (set_page p' r0))
      end.

Fixpoint process_batch (cfg : Config) (remainingUrls : list string) (r : Run) : Run :=
  match remainingUrls with
  | [] => r
  | statusUrl :: rest =>
      match process_item cfg statusUrl r with
      | (Break, r') => r'
      | (Continue, r') => process_batch cfg rest r'
      end
  end.

(** The filter at the head of the [while] body. *)
Definition remaining (r : Run) : list string :=
  List.filter
    (fun url => negb (is_liked (processed r) (statusIdOf url))
                && negb (bool_decide (url ∈ processedUrls r)))
    (tweetUrls r).

(** Scroll, collect again and append what was not attempted yet.  [None]
    when the scan does not return. *)
Definition recollect (cfg : Config) (r : Run) : option Run :=
  match collectTweetIds (MAX_SCAN cfg) (scrollBy (page r)) with
  | Some (newUrls, p') =>
      let newUniqueUrls :=
        List.filter (fun url => negb (bool_decide (url ∈ processedUrls r))) newUrls in
      Some {| processed := processed r; likedCount := likedCount r;
              processedUrls := processedUrls r;
              tweetUrls := tweetUrls r ++ newUniqueUrls;
              page := p'; events := events r |}
  | None => None
  end.

(** The test of the [while] loop, repeated after the batch. *)
Definition quota_left (cfg : Config) (r : Run) : bool :=
  (likedCount r <? TWEETS_TO_LIKE cfg) && (dayCount (processed r) <? DAILY_CAP cfg).

Inductive Exit := Completed | OutOfFuel.

(** The [while] loop of [processUrl].  The source puts no bound on it; the
    run so far is returned when the fuel is spent. *)
Fixpoint act_loop (fuel : nat) (cfg : Config) (r : Run) : Exit * Run :=
  if quota_left cfg r && (0 <? length (tweetUrls r))%nat then
    match fuel with
    | O => (OutOfFuel, r)
    | S fuel' =>
        let remainingUrls := remaining r in
        if (length remainingUrls =? 0)%nat then
          match recollect cfg r with
          | Some r' => act_loop fuel' cfg r'
          | None => (OutOfFuel, r)
          end
        else
          let r1 := process_batch cfg remainingUrls r in
          if quota_left cfg r1 then
            let unprocessedCount :=
              length (List.filter
                        (fun url => negb (bool_decide (url ∈ processedUrls r1)))
                        (tweetUrls r1)) in
            if (unprocessedCount =? 0)%nat then
              match recollect cfg r1 with
              | Some r2 => act_loop fuel' cfg r2
              | None => (OutOfFuel, r1)
              end
            else act_loop fuel' cfg r1
          else act_loop fuel' cfg r1
    end
  else (Completed, r).

(** The object [{ success, liked }] that [processUrl] returns. *)
Record UrlResult := mkUrlResult {
  success : bool;
  liked_here : Z
}.

(** [page.reload] + [page.waitForSelector] inside their own [try]. *)
Definition reload (p : Page) : Page :=
  match on_goto p with
  | NavLoaded d h login :: rest =>
      {| dom := d; scrollHeight := h; login_wall := login;
         on_goto := rest; on_scroll := on_scroll p;
         on_probe := on_probe p; on_click := on_click p;
         visited := visited p; clicks := clicks p;
         on_locate := on_locate p; landed := landed p |}
  | NavFailed _ :: rest =>
      {| dom := dom p; scrollHeight := scrollHeight p; login_wall := login_wall p;
         on_goto := rest; on_scroll := on_scroll p;
         on_probe := on_probe p; on_click := on_click p;
         visited := visited p; clicks := clicks p;
         on_locate := on_locate p; landed := landed p |}
  | [] => p
  end.

Definition start_run (processed0 : Ledger) (urls : list string) (p : Page) : Run :=
  {| processed := processed0; likedCount := 0; processedUrls := ∅;
     tweetUrls := urls; page := p; events := [] |}.

(** [processUrl(page, url, processed)]: the result object (when the act
    loop got to its end) and the run, whose ledger is the caller's object.
    The [catch] around the body is reached from [robustGoto] only: on a
    page that stays open nothing else in the body rejects outside the
    [try] of an item. *)
Definition processUrl (fuel : nat) (cfg : Config) (url : string)
    (processed0 : Ledger) (p : Page) : option UrlResult * Run :=
  let failed p' := (Some {| success := false; liked_here := 0 |},
                    start_run processed0 [] p') in
  match robustGoto url p with
  | (Throws _, p1) => failed p1
  | (Returns _, p1) =>
      if isLoginPage p1 then failed p1
      else
        let '(limited, p2) := isRateLimited p1 in
        let '(still, p3) :=
          if limited then isRateLimited (reload p2) else (false, p2) in
        if still then failed p3
        else
          match collectTweetIds (MAX_SCAN cfg) p3 with
          | None => (None, start_run processed0 [] p3)
          | Some (urls, p4) =>
              match act_loop fuel cfg (start_run processed0 urls p4) with
              | (Completed, r) =>
                  (Some {| success := true; liked_here := likedCount r |}, r)
              | (OutOfFuel, r) => (None, r)
              end
          end
  end.

(** ** The loop over targets (bot.js, [main]) *)

(** [urls.slice(0, n)]: a negative [n] counts from the end. *)
Definition slice0 (n : Z) (urls : list string) : list string :=
  if n <? 0 then take (length urls - Z.to_nat (- n)) urls
  else take (Z.to_nat n) urls.

(** [for (let i = 0; i < urlsToProcess.length; i++)]: one [processUrl] per
    target on the one ledger object and the one page, until the daily cap is
    reached.  The result is the ledger and the page at the end, and the
    events of each target. *)
Fixpoint run_targets (fuel : nat) (cfg : Config) (urlsToProcess : list string)
    (processed0 : Ledger) (p : Page) : Ledger * Page * list (list Event) :=
  match urlsToProcess with
  | [] => (processed0, p, [])
  | url :: rest =>
      let r := snd (processUrl fuel cfg url processed0 p) in
      if dayCount (processed r) >=? DAILY_CAP cfg
      then (processed r, page r, [events r])
      else
        let '(l, p', evs) := run_targets fuel cfg rest (processed r) (page r) in
        (l, p', events r :: evs)
  end.

(** [main], from the loading of the ledger on; [urls] is the first column
    of the input file. *)
Definition main (fuel : nat) (cfg : Config) (f : LedgerFile) (iso_now : string)
    (urls : list string) (p : Page) : Ledger * Page * list (list Event) :=
  let processed0 := loadProcessed f iso_now in
  let urlsToProcess := slice0 (ROWS_PER_LAUNCH cfg) urls in
  run_targets fuel cfg urlsToProcess processed0 p.

(** ** A small site to run the model on *)

Module Scenario.

(** A selector engine that refuses every selector that is not plain CSS. *)
Definition strict : string → list Element → Answer :=
  λ _ _, Refuses "Unexpected token while parsing css selector".

(** A tweet article with a profile link and one status link. *)
Definition tweet (path : string) (liked_already : bool) : Element :=
  {| is_article := true; is_tweet := true;
     anchors := [ {| attr_href := "/u"; href := "https://x.com/u" |};
                  {| attr_href := path; href := "https://x.com" +:+ path |} ];
     ancestor_tweet := None;
     unlike := if liked_already then [true] else [] |}.

Definition timeline : list Element :=
  [ tweet "/u/status/1" false; tweet "/u/status/2" false;
    tweet "/u/status/3" false; tweet "/u/status/4" false;
    tweet "/u/status/5" false ].

Definition blank : Page :=
  {| dom := []; scrollHeight := 0; login_wall := false;
     on_goto := []; on_scroll := []; on_probe := []; on_click := [];
     visited := []; clicks := 0;
     on_locate := strict; landed := 0 |}.

Definition showing (d : list Element) : Page :=
  {| dom := d; scrollHeight := 1000; login_wall := false;
     on_goto := []; on_scroll := []; on_probe := []; on_click := [];
     visited := []; clicks := 0;
     on_locate := strict; landed := 0 |}.

(** One target whose timeline has five tweets; the first two clicks work. *)
Definition site : Page :=
  {| dom := []; scrollHeight := 0; login_wall := false;
     on_goto := [NavLoaded timeline 1000 false];
     on_scroll := []; on_probe := [];
     on_click := [(ClickDone, timeline); (ClickDone, timeline)];
     visited := []; clicks := 0;
     on_locate := strict; landed := 0 |}.

Definition config : Config :=
  {| TWEETS_TO_LIKE := 2; ROWS_PER_LAUNCH := 1; MAX_SCAN := 500; DAILY_CAP := 10 |}.

Definition yesterday : Ledger :=
  {| liked := {[ "7" := true ]}; dayCount := 300; dayStart := "2026-11-02" |}.

Definition today : Ledger :=
  {| liked := {[ "7" := true ]}; dayCount := 3; dayStart := "2026-11-03" |}.

(** A page on which every click is rejected: the third rejection reaches
    the orchestrator, which leaves the ledger alone. *)
Definition detaching : Page :=
  {| dom := timeline; scrollHeight := 1000; login_wall := false;
     on_goto := []; on_scroll := []; on_probe := [];
     on_click := [ (ClickFailed "Element is not attached to the DOM", timeline);
                   (ClickFailed "Element is not attached to the DOM", timeline);
                   (ClickFailed "Element is not attached to the DOM", timeline) ];
     visited := []; clicks := 0;
     on_locate := strict; landed := 0 |}.


End Scenario.

(** * Notions used in the statements *)

(** An article of the DOM that the two locators of [likeTweetById] can
    find for [statusUrl]: it has an anchor whose [href] attribute is the URL
    itself or, when the URL has a non-empty identifier, contains
    "/status/" followed by that identifier. *)
Definition links_to (statusUrl : string) (e : Element) : bool :=
  is_article e
  && existsb
       (fun a =>
          String.eqb (attr_href a) statusUrl
          || match statusIdOf statusUrl with
             | Some (String c id) =>
                 Js.includes ("/status/" +:+ String c id) (attr_href a)
             | _ => false
             end)
       (anchors e).

(** The claim of the specification, with the reason it names. *)
Definition not_found_as_specified (statusUrl : string) (p : Page) : Prop :=
  existsb (links_to statusUrl) (dom p) = false →
  fst (likeTweetById statusUrl p)
  = Returns {| ok := false; already := None; reason := Some "not-found" |}.


(** An outcome of the action executor that the orchestrator counts as a
    like: a result with [ok] and without [already]. *)
Definition counted (o : Outcome LikeResult) : bool :=
  match o with
  | Returns result => ok result && negb (is_already result)
  | Throws _ => false
  end.

(** The ledger that the handling of a result leaves: counted up for a like
    that is not [already], with [liked[statusId]] set for a non-empty
    identifier, and as it was when the result is not [ok]. *)
Definition ledger_after (statusId : option string) (result : LikeResult)
    (l : Ledger) : Ledger :=
  if ok result then
    let l1 := if is_already result then l else incr_dayCount l in
    if Js.truthy statusId then set_liked (default "" statusId) l1 else l1
  else l.

(** The state after [k] iterations of the scan loop, run without looking at
    the loop test. *)
Fixpoint scan_steps (k : nat) (maxScan : Z) (s : Scan) (p : Page) : Scan * Page :=
  match k with
  | O => (s, p)
  | S k' => let '(s', p') := scan_step maxScan s p in scan_steps k' maxScan s' p'
  end.

(** The URL set stays duplicate-free and within the ceiling. *)
Definition within (maxScan : Z) (urls : list string) : Prop :=
  NoDup urls ∧ Z.of_nat (length urls) <= Z.max 0 maxScan.

(** How many more iterations a scan can take on a given page. *)
Definition scan_budget (s : Scan) (p : Page) : nat :=
  match on_scroll p with
  | [] => if scrollHeight p =? lastHeight s
          then Z.to_nat (3 - noChangeCount s) else 4
  | _ :: rest => length rest + 4
  end.

(** The scan of page [p] after [j] iterations. *)
Definition scan_at (maxScan : Z) (p : Page) (j : nat) : Scan * Page :=
  scan_steps j maxScan scan_start p.

(** Iteration [j + 1] measures the height the iterations before it left in
    [lastHeight]: a scroll step without page-height change. *)
Definition height_unchanged (maxScan : Z) (p : Page) (j : nat) : Prop :=
  scrollHeight (snd (scan_at maxScan p (S j))) = lastHeight (fst (scan_at maxScan p j)).

(** The events that the handling of a result with [ok] puts after the call. *)
Definition events_on_ok (statusUrl : string) (statusId : option string)
    (result : LikeResult) (l : Ledger) (count : Z) : list Event :=
  (if is_already result then [LogAlready statusUrl]
   else [Assigned (incr_dayCount l);
         LogLiked (count + 1) (dayCount l + 1) statusUrl])
  ++ (if Js.truthy statusId then [Assigned (ledger_after statusId result l)] else [])
  ++ [Saved (ledger_after statusId result l)].

(** How a dispatched item ends, by the outcome of the action executor. *)
Inductive Handled (statusUrl : string) (r r' : Run) : Outcome LikeResult → Prop :=
| HandledOk (result : LikeResult) :
    ok result = true →
    processed r' = ledger_after (statusIdOf statusUrl) result (processed r) →
    likedCount r' = (if is_already result then likedCount r else likedCount r + 1) →
    events r'
    = events r ++ Invoked statusUrl
        :: events_on_ok statusUrl (statusIdOf statusUrl) result
             (processed r) (likedCount r) →
    Handled statusUrl r r' (Returns result)
| HandledNotOk (result : LikeResult) :
    ok result = false →
    processed r' = processed r →
    likedCount r' = likedCount r →
    events r' = events r ++ [Invoked statusUrl; LogFailed statusUrl (reason result)] →
    Handled statusUrl r r' (Returns result)
| HandledThrow (error : Thrown) :
    processed r' = processed r →
    likedCount r' = likedCount r →
    events r' = events r ++ [Invoked statusUrl; LogError statusUrl error] →
    Handled statusUrl r r' (Throws error).

(** One iteration of the [for] loop either only writes a log line (a cap is
    reached, or the item is already in the ledger) or dispatches the item. *)
Inductive ItemStep (cfg : Config) (statusUrl : string) (r r' : Run) : Prop :=
| StepCap (ev : Event) :
    ev = LogDailyCap ∨ ev = LogPerProfile →
    processed r' = processed r →
    likedCount r' = likedCount r →
    events r' = events r ++ [ev] →
    ItemStep cfg statusUrl r r'
| StepSkip :
    is_liked (processed r) (statusIdOf statusUrl) = true →
    processed r' = processed r →
    likedCount r' = likedCount r →
    events r' = events r ++ [LogSkip statusUrl] →
    ItemStep cfg statusUrl r r'
| StepDispatch :
    dayCount (processed r) < DAILY_CAP cfg →
    likedCount r < TWEETS_TO_LIKE cfg →
    Js.truthy (statusIdOf statusUrl) && is_liked (processed r) (statusIdOf statusUrl)
    = false →
    Handled statusUrl r r' (fst (likeTweetById statusUrl (page r))) →
    ItemStep cfg statusUrl r r'.

(** A property of the ledger, the per-target counter and the events so far,
    read on a run. *)
Definition holds (I : Ledger → Z → list Event → Prop) (r : Run) : Prop :=
  I (processed r) (likedCount r) (events r).

(** The two counts a "Liked tweet" log line shows. *)
Definition like_of (ev : Event) : option (Z * Z) :=
  match ev with
  | LogLiked n d _ => Some (n, d)
  | _ => None
  end.

(** The likes a run performed, oldest first: for each the per-target count
    and the day count right after it. *)
Definition likes_of (evs : list Event) : list (Z * Z) := omap like_of evs.

(** An event that respects the caps: a ledger that is assigned or saved is
    within the daily cap, and a like was counted from values below both
    caps. *)
Definition event_within (cfg : Config) (ev : Event) : Prop :=
  match ev with
  | Assigned l | Saved l => dayCount l <= DAILY_CAP cfg
  | LogLiked n d _ => n - 1 < TWEETS_TO_LIKE cfg ∧ d - 1 < DAILY_CAP cfg
  | _ => True
  end.

(** The quota invariant of the act loop, for a run that started with
    [dayCount = d0]: the ledger is within the daily cap, the per-target
    count is within its cap, both counters moved together, the k-th like
    logged the counts k and [d0 + k], and every event respects the caps. *)
Definition quota_inv (cfg : Config) (d0 : Z) (l : Ledger) (n : Z)
    (evs : list Event) : Prop :=
  dayCount l <= DAILY_CAP cfg
  ∧ 0 <= n <= Z.max 0 (TWEETS_TO_LIKE cfg)
  ∧ dayCount l = d0 + n
  ∧ likes_of evs = (λ k, (k, d0 + k)) <$> seqZ 1 n
  ∧ Forall (event_within cfg) evs.

(** An event that respects the ledger [l0] of the start of the run: the
    action executor is not called on a URL whose key [l0] already holds. *)
Definition event_fresh (l0 : Ledger) (ev : Event) : Prop :=
  match ev with
  | Invoked statusUrl => liked l0 !! Js.prop_key (statusIdOf statusUrl) ≠ Some true
  | _ => True
  end.

(** The dedup invariant of the act loop, for a run that started with the
    ledger [l0]: the ledger has kept every entry of [l0], and every event
    respects [l0]. *)
Definition dedup_inv (l0 : Ledger) (l : Ledger) (n : Z) (evs : list Event) : Prop :=
  (∀ id : string, liked l0 !! id = Some true → liked l !! id = Some true)
  ∧ Forall (event_fresh l0) evs.

(** An item that left the ledger and the counter as they were and neither
    assigned to the ledger nor saved it. *)
Definition untouched (r r' : Run) (appended : list Event) : Prop :=
  processed r' = processed r
  ∧ likedCount r' = likedCount r
  ∧ ∀ l : Ledger, (Saved l ∉ appended) ∧ (Assigned l ∉ appended).

(** The URLs handed to the action executor, oldest first. *)
Definition invoked_of (evs : list Event) : list string :=
  omap (λ ev, match ev with Invoked statusUrl => Some statusUrl | _ => None end) evs.

(** The ledger that the last [saveProcessed] of [evs] was called with, and
    [l0] when there was none: what [PROCESSED_FILE] holds, if it held [l0]
    before and every write went through. *)
Definition last_saved (l0 : Ledger) (evs : list Event) : Ledger :=
  foldl (λ acc ev, match ev with Saved l => l | _ => acc end) l0 evs.

(** The ledger of the run is the one that was saved last. *)
Definition saved_current (l0 : Ledger) (l : Ledger) (n : Z) (evs : list Event) : Prop :=
  l = last_saved l0 evs.

(** The act loop dispatches from what the filter at the head of the [while]
    body lets through: no URL was dispatched twice, every dispatched URL was
    collected and is in [processedUrls], and the filter yields no URL
    twice. *)
Definition once_inv (r : Run) : Prop :=
  NoDup (invoked_of (events r))
  ∧ (∀ u : string, u ∈ invoked_of (events r) → u ∈ processedUrls r ∧ u ∈ tweetUrls r)
  ∧ NoDup (remaining r).

(** Likes are backed by clicks, and clicks by dispatched items, for a run
    on a page that had seen [c0] clicks when it started. *)
Definition clicks_inv (c0 : nat) (r : Run) : Prop :=
  (c0 ≤ clicks (page r))%nat
  ∧ 0 <= likedCount r <= Z.of_nat (clicks (page r) - c0)
  ∧ (clicks (page r) - c0 ≤ 3 * length (invoked_of (events r)))%nat.

(** The likes performed on a page between two of its states: the real
    clicks that resolved. *)
Definition likes_performed (p p' : Page) : Z :=
  Z.of_nat (landed p') - Z.of_nat (landed p).

(** Every click that resolved was counted, and nothing else was, for a run
    on a page [p0]. *)
Definition landed_inv (p0 : Page) (r : Run) : Prop :=
  likes_performed p0 (page r) = likedCount r.

(** The three ways in which [processUrl] leaves a target before it scans:
    the navigation threw, the page is a login wall, or it is rate limited
    and still is after the reload. *)
Definition gives_up (url : string) (p : Page) : bool :=
  match robustGoto url p with
  | (Throws _, _) => true
  | (Returns _, p1) =>
      isLoginPage p1
      || (let '(limited, p2) := isRateLimited p1 in
          limited && fst (isRateLimited (reload p2)))
  end.

(** The day never changes under a running target: the ledger and every
    saved copy of it carry the [dayStart] the run started with. *)
Definition same_day (day : string) (l : Ledger) (n : Z) (evs : list Event) : Prop :=
  dayStart l = day
  ∧ Forall (λ ev, match ev with Saved l' => dayStart l' = day | _ => True end) evs.

(** Every entry of [liked] is the one [l0] had, or [true] under the
    non-empty identifier of a URL that was dispatched. *)
Definition gains_inv (l0 : Ledger) (l : Ledger) (n : Z) (evs : list Event) : Prop :=
  ∀ id : string,
    liked l !! id = liked l0 !! id
    ∨ (liked l !! id = Some true ∧ id ≠ ""
       ∧ ∃ u : string, u ∈ invoked_of evs ∧ statusIdOf u = Some id).

(** No character of [s] is a question mark. *)
Definition no_query (s : string) : bool := negb (Js.includes "?" s).

(** * Properties *)

(** ** The model at work *)

(** The end-to-end scenario of the specification: cap 2 per target, daily cap
    10, empty ledger, five tweets discovered, the first two liked. *)
Example end_to_end :
  let '(res, r) := processUrl 10 Scenario.config "https://x.com/u" zero_ledger Scenario.site in
  res = Some {| success := true; liked_here := 2 |}
  ∧ map_to_list (liked (processed r)) = [("1", true); ("2", true)]
  ∧ dayCount (processed r) = 2.
Proof. vm_compute. done. Qed.

(** A fresh tweet is liked with one click; a click that is rejected once is
    tried again; a target behind the login wall is given up. *)
Example like_fresh_tweet :
  let p := {| dom := Scenario.timeline; scrollHeight := 1000; login_wall := false;
              on_goto := []; on_scroll := []; on_probe := [];
              on_click := [(ClickDone, Scenario.timeline)];
              visited := []; clicks := 0;
              on_locate := Scenario.strict; landed := 0 |} in
  fst (likeTweetById "https://x.com/u/status/3" p)
  = Returns {| ok := true; already := None; reason := None |}
  ∧ clicks (snd (likeTweetById "https://x.com/u/status/3" p)) = 1%nat.
Proof. by vm_compute. Qed.

Example like_after_one_rejection :
  let p := {| dom := Scenario.timeline; scrollHeight := 1000; login_wall := false;
              on_goto := []; on_scroll := []; on_probe := [];
              on_click := [(ClickFailed "Element is not attached to the DOM",
                            Scenario.timeline);
                           (ClickDone, Scenario.timeline)];
              visited := []; clicks := 0;
              on_locate := Scenario.strict; landed := 0 |} in
  fst (likeTweetById "https://x.com/u/status/3" p)
  = Returns {| ok := true; already := None; reason := None |}
  ∧ clicks (snd (likeTweetById "https://x.com/u/status/3" p)) = 2%nat.
Proof. by vm_compute. Qed.

Example login_wall_gives_up :
  let p := {| dom := []; scrollHeight := 0; login_wall := false;
              on_goto := [NavLoaded [] 600 true];
              on_scroll := []; on_probe := []; on_click := [];
              visited := []; clicks := 0;
              on_locate := Scenario.strict; landed := 0 |} in
  fst (processUrl 10 Scenario.config "https://x.com/u" zero_ledger p)
  = Some {| success := false; liked_here := 0 |}
  ∧ visited (page (snd (processUrl 10 Scenario.config "https://x.com/u" zero_ledger p)))
    = ["https://x.com/u"].
Proof. by vm_compute. Qed.

(** ** JavaScript strings *)

Lemma append_nil_l (s : string) : "" +:+ s = s.
Proof. reflexivity. Qed.

Lemma append_cons (c : ascii) (a s : string) : String c a +:+ s = String c (a +:+ s).
Proof. reflexivity. Qed.

Lemma append_empty_r (s : string) : s +:+ "" = s.
Proof.
  induction s as [| c s IH]; [done |]. by rewrite append_cons, IH.
Qed.

Lemma append_snoc (a : string) (c : ascii) (s : string) :
  (a +:+ String c "") +:+ s = a +:+ String c s.
Proof.
  induction a as [| c' a IH]; [done |]. by rewrite !append_cons, IH.
Qed.

Lemma prefix_empty (s : string) : String.prefix "" s = true.
Proof. by destruct s. Qed.

(** Decide, one after the other, the character comparisons that a prefix
    test on a partly known string comes down to. *)
Ltac compare_chars :=
  repeat (match goal with
          | |- context [ascii_dec ?a ?b] => destruct (ascii_dec a b); try done
          end).

Lemma prefix_app_self (p b : string) : String.prefix p (p +:+ b) = true.
Proof.
  induction p as [| c p IH]; [apply prefix_empty |].
  rewrite append_cons. cbn [String.prefix].
  by destruct (ascii_dec c c).
Qed.

Lemma includes_app_intro (p a b : string) : Js.includes p (a +:+ p +:+ b) = true.
Proof.
  induction a as [| c a IH].
  - rewrite append_nil_l. pose proof (prefix_app_self p b) as H.
    destruct (p +:+ b) eqn:E; [exact H | cbn [Js.includes]; by rewrite H].
  - rewrite append_cons. cbn [Js.includes]. rewrite IH. apply orb_true_r.
Qed.

(** ** Ledger store *)

(** C2. Loading normalises the ledger against today's date: a stored
    [dayStart] other than today gives [dayCount = 0] and [dayStart = today]
    with [liked] as stored; a [dayStart] equal to today gives the ledger as
    read; an absent or unreadable file gives the zero-valued ledger, dated
    today. *)
Theorem loadProcessed_rollover (f : LedgerFile) (iso_now : string) :
  let stored := read_ledger f in
  let today := today_of iso_now in
  (dayStart stored ≠ today →
     loadProcessed f iso_now
     = {| liked := liked stored; dayCount := 0; dayStart := today |})
  ∧ (dayStart stored = today → loadProcessed f iso_now = stored)
  ∧ ((∀ data, f ≠ FileJson data) →
     stored = zero_ledger
     ∧ loadProcessed f iso_now = {| liked := ∅; dayCount := 0; dayStart := today |}).
Proof.
  intros stored today. unfold loadProcessed. fold stored today.
  split; [| split].
  - intros Hne. by rewrite bool_decide_eq_true_2.
  - intros Heq. by rewrite bool_decide_eq_false_2 by (intros Hne; by apply Hne).
  - intros Hf.
    assert (Hz : stored = zero_ledger).
    { subst stored. destruct f as [| | data]; try done. by destruct (Hf data). }
    split; [done |]. rewrite Hz. simpl.
    case_bool_decide as Hd; [done |].
    unfold zero_ledger. by rewrite <- Hd.
Qed.

Lemma loadProcessed_rollover_witness :
  loadProcessed (FileJson Scenario.yesterday) "2026-11-03T08:15:00.000Z"
  = {| liked := {[ "7" := true ]}; dayCount := 0; dayStart := "2026-11-03" |}.
Proof.
  apply (proj1 (loadProcessed_rollover (FileJson Scenario.yesterday)
                  "2026-11-03T08:15:00.000Z")).
  vm_compute. discriminate.
Defined.

(** ** Backoff *)

Lemma Qmin_inject_Z (a b : Z) :
  (Qmin (inject_Z a) (inject_Z b) == inject_Z (Z.min a b))%Q.
Proof.
  destruct (Z.min_spec a b) as [[Hlt ->] | [Hle ->]].
  - apply Q.min_l. rewrite <- Zle_Qle. lia.
  - apply Q.min_r. by rewrite <- Zle_Qle.
Qed.

(** For an attempt index that is a natural number the capped delay is an
    integer number of milliseconds. *)
Lemma exponentialDelay_integer (n : Z) :
  0 <= n →
  (Qmin (1000 * Qpower 2 n) 60000 == inject_Z (Z.min (1000 * 2 ^ n) 60000))%Q.
Proof.
  intros Hn. rewrite <- Qmin_inject_Z, inject_Z_mult.
  by rewrite (Zpower_Qpower 2 n Hn).
Qed.

Lemma inject_Z_nonneg (k : Z) : 0 <= k → (0 <= inject_Z k)%Q.
Proof. intros Hk. change (inject_Z 0 <= inject_Z k)%Q. by rewrite <- Zle_Qle. Qed.

(** [randomBetween(0, k)] for an integer [k] lies between 0 and [k]. *)
Lemma randomBetween_integer_range (rnd : Q) (k : Z) :
  (0 <= rnd)%Q → (rnd < 1)%Q → 0 <= k →
  (0 <= randomBetween rnd 0 (inject_Z k))%Q
  ∧ (randomBetween rnd 0 (inject_Z k) <= inject_Z k)%Q.
Proof.
  intros H0 H1 Hk. unfold randomBetween.
  pose proof (inject_Z_nonneg k Hk) as Hk'.
  set (x := (rnd * (inject_Z k - 0 + 1))%Q).
  assert (Hx0 : (0 <= x)%Q).
  { subst x. apply Qmult_le_0_compat; [done | lra]. }
  assert (Hx1 : (x < inject_Z (k + 1))%Q).
  { subst x. rewrite inject_Z_plus. change (inject_Z 1) with 1%Q. nra. }
  assert (Hlo : 0 <= Qfloor x).
  { change 0 with (Qfloor 0). by apply Qfloor_resp_le. }
  assert (Hhi : Qfloor x <= k).
  { assert (Qfloor x < k + 1); [| lia].
    rewrite Zlt_Qlt. eapply Qle_lt_trans; [apply Qfloor_le | done]. }
  split.
  - pose proof (inject_Z_nonneg _ Hlo). lra.
  - rewrite Zle_Qle in Hhi. lra.
Qed.

(** C7. For every attempt index [n >= 0] and every draw [rnd] of
    [Math.random()] (0 included, 1 excluded), [calculateBackoff(n)] lies
    between [min(1000 * 2^n, 60000)] and 1.3 times that value. *)
Theorem calculateBackoff_bounds (rnd : Q) (n : Z) :
  0 <= n → (0 <= rnd)%Q → (rnd < 1)%Q →
  let capped := inject_Z (Z.min (1000 * 2 ^ n) 60000) in
  (capped <= calculateBackoff rnd n)%Q
  ∧ (calculateBackoff rnd n <= (13 # 10) * capped)%Q.
Proof.
  intros Hn H0 H1 capped. unfold calculateBackoff.
  pose proof (exponentialDelay_integer n Hn) as He. fold capped in He.
  set (k := Z.min (100 * 2 ^ n) 6000).
  assert (Hk : 0 <= k) by (pose proof (Z.pow_pos_nonneg 2 n); lia).
  assert (Hcap : capped = inject_Z (10 * k)) by (subst capped k; f_equal; lia).
  assert (Hj : (capped * (3 # 10) == inject_Z (3 * k))%Q).
  { rewrite Hcap, !inject_Z_mult. change (inject_Z 10) with 10%Q.
    change (inject_Z 3) with 3%Q. field. }
  assert (Hjit : (randomBetween rnd 0
                    (Qmin (1000 * Qpower 2 n) 60000 * (3 # 10))
                  == randomBetween rnd 0 (inject_Z (3 * k)))%Q).
  { unfold randomBetween. by rewrite He, Hj. }
  rewrite Hjit, He.
  destruct (randomBetween_integer_range rnd (3 * k) H0 H1 ltac:(lia)) as [Hlo Hhi].
  rewrite <- Hj in Hhi at 2.
  split; lra.
Qed.

Lemma calculateBackoff_bounds_witness :
  (inject_Z 8000 <= calculateBackoff (999 # 1000) 3)%Q
  ∧ (calculateBackoff (999 # 1000) 3 <= (13 # 10) * inject_Z 8000)%Q.
Proof.
  apply (calculateBackoff_bounds (999 # 1000) 3); [lia | lra | lra].
Defined.

(** The two uses in the source pass attempt 0: between 1000 and 1300 ms. *)
Example calculateBackoff_first_attempt :
  calculateBackoff 0 0 = 1000%Q ∧ calculateBackoff (999 # 1000) 0 = 1300%Q.
Proof. by vm_compute. Qed.

(** ** Status identifier *)

(** A run of digits holds no separator that starts with a non-digit. *)
Lemma split_go_digits (c0 : ascii) (sep cur s : string) :
  Js.is_digit c0 = false → Js.all_digits s = true →
  Js.split_go (String c0 sep) 0 cur s = [cur +:+ s].
Proof.
  intros Hc0. revert cur. induction s as [| c s IH]; intros cur Hs.
  - by rewrite append_empty_r.
  - cbn [Js.all_digits] in Hs. apply andb_true_iff in Hs as [Hc Hs].
    cbn [Js.split_go String.prefix].
    destruct (ascii_dec c0 c) as [-> | Hne]; [congruence |].
    by rewrite IH, append_snoc.
Qed.

(** Whether "/status/" starts a string that runs into the marker is decided
    before the marker's last character. *)
Lemma prefix_marker_cut (c : ascii) (s d : string) :
  String.prefix "/status/" (String c s +:+ "/status/" +:+ d)
  = String.prefix "/status/" (String c s +:+ "/status").
Proof.
  destruct s as [| c2 [| c3 [| c4 [| c5 [| c6 [| c7 [| c8 s]]]]]]];
    rewrite ?append_cons, ?append_nil_l; cbn [String.prefix];
    compare_chars;
    by rewrite ?prefix_empty.
Qed.

Lemma split_go_marker (pre cur d : string) :
  Js.includes "/status/" (pre +:+ "/status") = false →
  Js.split_go "/status/" 0 cur (pre +:+ "/status/" +:+ d)
  = (cur +:+ pre) :: Js.split_go "/status/" 0 "" d.
Proof.
  revert cur. induction pre as [| c pre IH]; intros cur H.
  - rewrite append_nil_l, append_empty_r, !append_cons, append_nil_l.
    cbn. by rewrite prefix_empty.
  - rewrite append_cons in H. cbn [Js.includes] in H.
    apply orb_false_iff in H as [Hhere Hlater].
    rewrite <- append_cons, <- prefix_marker_cut with (d := d) in Hhere.
    rewrite append_cons in *. cbn [Js.split_go]. rewrite Hhere.
    by rewrite IH, append_snoc.
Qed.

(** On a permalink in its plain form (no further "/status/" before the
    marker, digits after it, nothing else) the identifier is the digits. *)
Lemma statusIdOf_plain_permalink (pre digits : string) :
  Js.includes "/status/" (pre +:+ "/status") = false →
  Js.all_digits digits = true →
  statusIdOf (pre +:+ "/status/" +:+ digits) = Some digits.
Proof.
  intros Hpre Hd. unfold statusIdOf, Js.split.
  rewrite split_go_marker by done.
  rewrite (split_go_digits "/" "status/" "" digits) by done.
  simpl. rewrite !append_nil_l.
  by rewrite (split_go_digits "?" "" "" digits).
Qed.

Example statusIdOf_plain_permalink_example :
  statusIdOf "https://x.com/u/status/1790000000000000001"
  = Some "1790000000000000001".
Proof.
  by apply (statusIdOf_plain_permalink "https://x.com/u" "1790000000000000001").
Qed.

(** C9. [processUrl] and [likeTweetById] take as identifier everything
    between "/status/" and the next "?": on a link to a photo of status 123
    the ledger key is "123/photo/1", which is not a number, while
    [findTweetId] of helper.js gives "123" on the same tweet.  Extraction is
    a function of the URL alone, so it is stable across re-scrolls. *)
Theorem statusIdOf_keeps_trailing_path :
  statusIdOf "https://x.com/u/status/123/photo/1" = Some "123/photo/1"
  ∧ Js.all_digits "123/photo/1" = false
  ∧ findTweetId (Scenario.tweet "/u/status/123/photo/1" false) = Some "123"
  ∧ extractStatusUrlFn (Scenario.tweet "/u/status/123/photo/1" false)
    = Some "https://x.com/u/status/123/photo/1"
  ∧ (let '(_, r) :=
       processUrl 10 Scenario.config "https://x.com/u" zero_ledger
         {| dom := []; scrollHeight := 0; login_wall := false;
            on_goto := [NavLoaded [Scenario.tweet "/u/status/123/photo/1" false] 900 false];
            on_scroll := []; on_probe := [];
            on_click := [(ClickDone, [])]; visited := []; clicks := 0;
            on_locate := Scenario.strict; landed := 0 |} in
     map_to_list (liked (processed r)) = [("123/photo/1", true)]).
Proof. vm_compute. done. Qed.

(** ** Action executor *)

Lemma filter_nil_of_forall {A} (f : A → bool) (l : list A) :
  (∀ x, x ∈ l → f x = false) → List.filter f l = [].
Proof.
  induction l as [| x l IH]; intros H; [done |]. simpl.
  rewrite (H x) by constructor. apply IH. intros y Hy. apply H. by constructor.
Qed.

Lemma existsb_false_elem {A} (f : A → bool) (l : list A) (x : A) :
  existsb f l = false → x ∈ l → f x = false.
Proof.
  intros H Hx. destruct (f x) eqn:Hfx; [| done].
  assert (existsb f l = true); [| congruence].
  apply existsb_exists. exists x. split; [by apply list_elem_of_In | done].
Qed.

Lemma existsb_false_weaken {A} (f g : A → bool) (l : list A) :
  (∀ x, g x = true → f x = true) → existsb f l = false → existsb g l = false.
Proof.
  intros Hfg H. destruct (existsb g l) eqn:Hg; [| done].
  apply existsb_exists in Hg as (x & Hx & Hgx).
  assert (existsb f l = true); [| congruence].
  apply existsb_exists. exists x. auto.
Qed.

(** For a plain URL the locators are the structural ones and do not
    reject. *)
Lemma locate_plain (statusUrl : string) (p : Page) :
  css_plain statusUrl = true →
  find_target statusUrl p = plain_target statusUrl p
  ∧ refusal statusUrl p = None.
Proof. unfold find_target, refusal, locate. by intros ->. Qed.

(** A target at hand means that no count rejected. *)
Lemma found_not_refused (statusUrl : string) (p : Page) :
  missing (find_target statusUrl p) = false → refusal statusUrl p = None.
Proof. unfold find_target, refusal. by destruct (locate statusUrl p). Qed.

(** A rejected count before the loop is the rejection of the call. *)
Lemma likeTweetById_refused (statusUrl : string) (p : Page) (message : string) :
  refusal statusUrl p = Some message →
  likeTweetById statusUrl p = (Throws (Error message), p).
Proof. unfold likeTweetById. by intros ->. Qed.

(** A URL that ends in a backslash takes the closing quote of the selector
    with it: an engine that refuses such a selector makes the call throw
    before the DOM is looked at. *)
Example likeTweetById_refused_selector :
  likeTweetById "https://x.com/u/status/1#\" (Scenario.showing Scenario.timeline)
  = (Throws (Error "Unexpected token while parsing css selector"),
     Scenario.showing Scenario.timeline).
Proof. reflexivity. Qed.

Lemma no_link_no_target (statusUrl : string) (p : Page) :
  existsb (links_to statusUrl) (dom p) = false →
  missing (plain_target statusUrl p) = true.
Proof.
  intros H. unfold plain_target.
  assert (He : exact_matches statusUrl p = []).
  { apply filter_nil_of_forall. intros e He.
    pose proof (existsb_false_elem _ _ e H He) as Hl. unfold links_to in Hl.
    destruct (is_article e); [simpl in *| done].
    eapply existsb_false_weaken; [| exact Hl].
    intros a Ha. cbv beta in *. by rewrite Ha. }
  rewrite He. simpl.
  destruct (statusIdOf statusUrl) as [[| c id] |] eqn:Hid; simpl; try done.
  assert (Hf : fallback_matches (String c id) p = []); [| by rewrite Hf].
  apply filter_nil_of_forall. intros e Hel.
  pose proof (existsb_false_elem _ _ e H Hel) as Hl. unfold links_to in Hl.
  rewrite Hid in Hl.
  destruct (is_article e); [simpl in *| done].
  eapply existsb_false_weaken; [| exact Hl].
  intros a Ha. cbv beta in *. rewrite Ha. apply orb_true_r.
Qed.






(** C5, as stated: on a page that shows no tweet at all the result is a
    normal one with [ok = false], but its reason is not "not-found". *)
Lemma not_found_reason_differs :
  ¬ not_found_as_specified "https://x.com/u/status/1" Scenario.blank.
Proof.
  unfold not_found_as_specified. intros H.
  specialize (H eq_refl). vm_compute in H. discriminate.
Qed.

(** C5, amended. Take a status URL that the selectors of the two locators
    hold as it is (no double quote, no backslash, no control character).
    When no article of the current DOM links to it, neither by the exact
    [href] nor by its identifier segment, [likeTweetById] returns (it does
    not throw) the object [{ ok: false, reason: 'tweet-not-found' }] and
    leaves the page as it was, with no click. *)
Theorem likeTweetById_not_found (statusUrl : string) (p : Page) :
  css_plain statusUrl = true →
  existsb (links_to statusUrl) (dom p) = false →
  likeTweetById statusUrl p
  = (Returns {| ok := false; already := None; reason := Some "tweet-not-found" |}, p).
Proof.
  intros Hplain H. unfold likeTweetById.
  destruct (locate_plain statusUrl p Hplain) as [-> ->].
  by rewrite (no_link_no_target statusUrl p H).
Qed.

Lemma likeTweetById_not_found_witness :
  likeTweetById "https://x.com/u/status/9" (Scenario.showing Scenario.timeline)
  = (Returns {| ok := false; already := None; reason := Some "tweet-not-found" |},
     Scenario.showing Scenario.timeline).
Proof.
  apply (likeTweetById_not_found "https://x.com/u/status/9"
           (Scenario.showing Scenario.timeline)).
  - reflexivity.
  - vm_compute. reflexivity.
Defined.

(** The assignment to [liked] moves no other field; it puts [true] under
    the key, except where it does nothing. *)
Lemma set_liked_spec (statusId : string) (l : Ledger) :
  dayCount (set_liked statusId l) = dayCount l
  ∧ dayStart (set_liked statusId l) = dayStart l
  ∧ (liked (set_liked statusId l) = <[statusId := true]> (liked l)
     ∨ set_liked statusId l = l
       ∧ statusId = "__proto__" ∧ liked l !! statusId = None).
Proof.
  unfold set_liked. case_bool_decide as H.
  - destruct H as [Hname Hnone]. do 2 (split; [done |]). by right.
  - do 2 (split; [done |]). by left.
Qed.


(** The rate-limit probe after a like moves nothing but the page. *)
Lemma probe_rate_limit_fields (r : Run) :
  processed (probe_rate_limit r) = processed r
  ∧ likedCount (probe_rate_limit r) = likedCount r
  ∧ events (probe_rate_limit r) = events r
  ∧ processedUrls (probe_rate_limit r) = processedUrls r
  ∧ tweetUrls (probe_rate_limit r) = tweetUrls r.
Proof. unfold probe_rate_limit. by destruct (isRateLimited (page r)). Qed.

Lemma on_result_processed statusUrl statusId result r :
  processed (on_result statusUrl statusId result r)
  = ledger_after statusId result (processed r).
Proof.
  unfold on_result, ledger_after.
  destruct (ok result); [| done].
  match goal with |- processed (probe_rate_limit ?x) = _ =>
    destruct (probe_rate_limit_fields x) as (-> & _) end.
  by destruct (Js.truthy statusId), (is_already result).
Qed.

Lemma on_result_likedCount statusUrl statusId result r :
  likedCount (on_result statusUrl statusId result r)
  = if ok result && negb (is_already result) then likedCount r + 1 else likedCount r.
Proof.
  unfold on_result.
  destruct (ok result); [| done].
  match goal with |- likedCount (probe_rate_limit ?x) = _ =>
    destruct (probe_rate_limit_fields x) as (_ & -> & _) end.
  by destruct (Js.truthy statusId), (is_already result).
Qed.




(** ** Navigation controller *)

(** Whether "x.com" starts a string that runs into the host name is decided
    before the host name's last character. *)
Lemma prefix_host_cut (c : ascii) (s d : string) :
  String.prefix "x.com" (String c s +:+ "x.com" +:+ d)
  = String.prefix "x.com" (String c s +:+ "x.co").
Proof.
  destruct s as [| c2 [| c3 [| c4 [| c5 s]]]];
    rewrite ?append_cons, ?append_nil_l; cbn [String.prefix];
    compare_chars;
    by rewrite ?prefix_empty.
Qed.

(** What comes before the first "x.com" is copied by the replacement. *)
Lemma fallbackUrl_scheme (scheme s : string) :
  Js.includes "x.com" (scheme +:+ "x.co") = false →
  fallbackUrl (scheme +:+ "x.com" +:+ s) = scheme +:+ fallbackUrl ("x.com" +:+ s).
Proof.
  unfold fallbackUrl, Js.replaceAll.
  induction scheme as [| c scheme IH]; intros H; [done |].
  rewrite append_cons in H. cbn [Js.includes] in H.
  apply orb_false_iff in H as [Hhere Hlater].
  rewrite <- append_cons, <- prefix_host_cut with (d := s) in Hhere.
  rewrite !append_cons in *. cbn [Js.replace_go]. rewrite Hhere.
  by rewrite IH.
Qed.

Lemma fallbackUrl_host (s : string) :
  fallbackUrl ("x.com" +:+ s) = "twitter.com" +:+ fallbackUrl s.
Proof.
  unfold fallbackUrl, Js.replaceAll. rewrite !append_cons, append_nil_l.
  cbn. by rewrite prefix_empty.
Qed.

(** Whether "x.com" starts a string does not depend on what follows a
    question mark. *)
Lemma prefix_host_query (s q : string) :
  String.prefix "x.com" (s +:+ String "?" q) = String.prefix "x.com" s.
Proof.
  destruct s as [| c1 [| c2 [| c3 [| c4 [| c5 s]]]]];
    rewrite ?append_cons, ?append_nil_l; cbn [String.prefix];
    compare_chars.
  by rewrite !prefix_empty.
Qed.

(** A path that does not mention the host is copied by the replacement,
    whatever the query after it. *)
Lemma fallbackUrl_path (path query : string) :
  Js.includes "x.com" path = false →
  query = "" ∨ (∃ q, query = String "?" q) →
  fallbackUrl (path +:+ query) = path +:+ fallbackUrl query.
Proof.
  unfold fallbackUrl, Js.replaceAll.
  intros Hp Hq. induction path as [| c path IH]; [done |].
  cbn [Js.includes] in Hp. apply orb_false_iff in Hp as [Hc Hs].
  assert (Hpre : String.prefix "x.com" (String c path +:+ query) = false).
  { destruct Hq as [-> | [q ->]].
    - by rewrite append_empty_r.
    - by rewrite prefix_host_query. }
  rewrite !append_cons in *.
  cbn [Js.replace_go]. rewrite Hpre. by rewrite IH.
Qed.

(** What one navigation does, read off the script. *)
Lemma navigate_spec (url : string) (p : Page) :
  fst (navigate url p)
  = match on_goto p with
    | NavLoaded _ _ _ :: _ => Returns ()
    | NavFailed m :: _ => Throws (Error m)
    | [] => Throws (Error "Timeout")
    end
  ∧ on_goto (snd (navigate url p)) = tail (on_goto p)
  ∧ visited (snd (navigate url p)) = visited p ++ [url].
Proof. unfold navigate. by destruct (on_goto p) as [| [d h login | m] rest]. Qed.

Lemma navigate_throws_error (url : string) (p : Page) (e : Thrown) :
  fst (navigate url p) = Throws e → ∃ m : string, e = Error m.
Proof.
  destruct (navigate_spec url p) as (-> & _).
  destruct (on_goto p) as [| [d h login | m] rest]; intros [= <-]; eauto.
Qed.

(** C6. For a target on x.com (a scheme, then the first "x.com" of the URL
    as host, then a path that does not mention x.com, then an optional
    query) whose two primary attempts both fail, [robustGoto] navigates to
    the URL twice and then exactly once to the same path on twitter.com; it
    returns [true] if that attempt loads, and otherwise throws the error of
    the second (last) primary attempt. *)
Theorem robustGoto_fallback_once
    (scheme path query : string) (e1 e2 : Thrown) (p : Page) :
  Js.includes "x.com" (scheme +:+ "x.co") = false →
  Js.includes "x.com" path = false →
  query = "" ∨ (∃ q, query = String "?" q) →
  let url := scheme +:+ "x.com" +:+ path +:+ query in
  let alternate := scheme +:+ "twitter.com" +:+ path +:+ fallbackUrl query in
  let p1 := snd (navigate url p) in
  let p2 := snd (navigate url p1) in
  fst (navigate url p) = Throws e1 →
  fst (navigate url p1) = Throws e2 →
  visited (snd (robustGoto url p)) = visited p ++ [url; url; alternate]
  ∧ fst (robustGoto url p)
    = match fst (navigate alternate p2) with
      | Returns _ => Returns true
      | Throws _ => Throws e2
      end.
Proof.
  intros Hs Hp Hq url alternate p1 p2 H1 H2.
  assert (Halt : fallbackUrl url = alternate).
  { subst url alternate.
    by rewrite fallbackUrl_scheme, fallbackUrl_host, fallbackUrl_path. }
  assert (Hinc : Js.includes "x.com" url = true) by apply includes_app_intro.
  destruct (navigate_throws_error _ _ _ H2) as [m2 ->].
  assert (Hv : visited (snd (navigate alternate p2))
               = visited p ++ [url; url; alternate]).
  { destruct (navigate_spec alternate p2) as (_ & _ & ->).
    destruct (navigate_spec url p1) as (_ & _ & Hv2). fold p2 in Hv2. rewrite Hv2.
    destruct (navigate_spec url p) as (_ & _ & Hv1). fold p1 in Hv1. rewrite Hv1.
    by rewrite <- !app_assoc. }
  unfold robustGoto. cbn [goto_attempts]. rewrite Hinc, Halt.
  subst p2 p1.
  destruct (navigate url p) as [o1 q1]. simpl in *. subst o1.
  destruct (navigate url q1) as [o2 q2]. simpl in *. subst o2.
  by destruct (navigate alternate q2) as [[[] | e3] q3].
Qed.

Lemma robustGoto_fallback_once_witness :
  visited (snd (robustGoto "https://x.com/u?lang=en"
                  {| dom := []; scrollHeight := 0; login_wall := false;
                     on_goto := [NavFailed "net::ERR_TIMED_OUT"; NavFailed "Timeout 60000ms"];
                     on_scroll := []; on_probe := []; on_click := [];
                     visited := []; clicks := 0;
                     on_locate := Scenario.strict; landed := 0 |}))
  = ["https://x.com/u?lang=en"; "https://x.com/u?lang=en"; "https://twitter.com/u?lang=en"]
  ∧ fst (robustGoto "https://x.com/u?lang=en"
           {| dom := []; scrollHeight := 0; login_wall := false;
              on_goto := [NavFailed "net::ERR_TIMED_OUT"; NavFailed "Timeout 60000ms"];
              on_scroll := []; on_probe := []; on_click := [];
              visited := []; clicks := 0;
              on_locate := Scenario.strict; landed := 0 |})
    = Throws (Error "Timeout 60000ms").
Proof.
  apply (robustGoto_fallback_once "https://" "/u" "?lang=en"
           (Error "net::ERR_TIMED_OUT") (Error "Timeout 60000ms")
           {| dom := []; scrollHeight := 0; login_wall := false;
              on_goto := [NavFailed "net::ERR_TIMED_OUT"; NavFailed "Timeout 60000ms"];
              on_scroll := []; on_probe := []; on_click := [];
              visited := []; clicks := 0;
              on_locate := Scenario.strict; landed := 0 |});
    [reflexivity | reflexivity | right; eexists; reflexivity
    | reflexivity | reflexivity].
Defined.

(** The query of a search target is rewritten along with the host. *)
Example fallbackUrl_search :
  fallbackUrl "https://x.com/search?q=x.com" = "https://twitter.com/search?q=twitter.com".
Proof. reflexivity. Qed.

(** ** Content discovery *)

Lemma scan_steps_S (k : nat) (maxScan : Z) (s : Scan) (p : Page) :
  scan_steps (S k) maxScan s p
  = scan_step maxScan (fst (scan_steps k maxScan s p)) (snd (scan_steps k maxScan s p)).
Proof.
  revert s p. induction k as [| k IH]; intros s p.
  - simpl. by destruct (scan_step maxScan s p).
  - change (scan_steps (S (S k)) maxScan s p)
      with (let '(s', p') := scan_step maxScan s p in scan_steps (S k) maxScan s' p').
    cbn [scan_steps]. destruct (scan_step maxScan s p) as [s' p']. apply IH.
Qed.

(** What one iteration does to the height bookkeeping. *)
Lemma scan_step_heights (maxScan : Z) (s : Scan) (p : Page) :
  snd (scan_step maxScan s p) = scrollBy p
  ∧ lastHeight (fst (scan_step maxScan s p)) = scrollHeight (scrollBy p)
  ∧ noChangeCount (fst (scan_step maxScan s p))
    = if scrollHeight (scrollBy p) =? lastHeight s then noChangeCount s + 1 else 0.
Proof.
  unfold scan_step.
  destruct (scrollHeight (scrollBy p) =? lastHeight s) eqn:E; simpl; [| done].
  apply Z.eqb_eq in E. by rewrite E.
Qed.

Lemma set_add_inv (u : string) (urls : list string) :
  NoDup urls →
  NoDup (set_add u urls) ∧ (length (set_add u urls) ≤ S (length urls))%nat.
Proof.
  intros Hnd. unfold set_add. case_bool_decide as Hin.
  - split; [done | lia].
  - split; [| rewrite length_app; simpl; lia].
    apply NoDup_app. repeat split; [done | | apply NoDup_singleton].
    intros x Hx Hx'. apply list_elem_of_singleton in Hx'. by subst.
Qed.

Lemma scan_elements_within (maxScan : Z) (elements : list Element) (urls : list string) :
  within maxScan urls → within maxScan (scan_elements maxScan elements urls).
Proof.
  revert urls.
  induction elements as [| e es IH]; intros urls [Hnd Hlen]; [by split |].
  cbn [scan_elements].
  destruct (maxScan <=? Z.of_nat (length urls)) eqn:Hfull; [by split |].
  apply Z.leb_gt in Hfull. apply IH.
  destruct (extractStatusUrlFn e) as [u |]; [| by split].
  destruct (Js.truthy (Some u)); [| by split].
  destruct (set_add_inv u urls Hnd) as [Hnd' Hlen'].
  split; [done | lia].
Qed.

Lemma scan_step_within (maxScan : Z) (s : Scan) (p : Page) :
  within maxScan (tweetUrlSet s) ∧ 0 <= noChangeCount s →
  within maxScan (tweetUrlSet (fst (scan_step maxScan s p)))
  ∧ 0 <= noChangeCount (fst (scan_step maxScan s p)).
Proof.
  intros [Hw Hn].
  destruct (scan_step_heights maxScan s p) as (_ & _ & Hnc).
  split.
  - unfold scan_step.
    destruct (scrollHeight (scrollBy p) =? lastHeight s); simpl;
      by do 2 apply scan_elements_within.
  - rewrite Hnc. destruct (_ =? _); lia.
Qed.

Lemma scan_steps_within (k : nat) (maxScan : Z) (s : Scan) (p : Page) :
  within maxScan (tweetUrlSet s) ∧ 0 <= noChangeCount s →
  within maxScan (tweetUrlSet (fst (scan_steps k maxScan s p)))
  ∧ 0 <= noChangeCount (fst (scan_steps k maxScan s p)).
Proof.
  intros H. induction k as [| k IH]; [done |].
  rewrite scan_steps_S. by apply scan_step_within.
Qed.

(** The loop runs exactly as long as its test holds. *)
Lemma collect_loop_spec (fuel : nat) (maxScan : Z) (i : nat) (s : Scan) (p : Page)
    (s' : Scan) (p' : Page) (n : nat) :
  collect_loop fuel maxScan i s p = Some (s', p', n) →
  ∃ k : nat,
    n = (i + k)%nat
    ∧ scan_steps k maxScan s p = (s', p')
    ∧ scan_goes_on maxScan s' = false
    ∧ ∀ j : nat, (j < k)%nat →
        scan_goes_on maxScan (fst (scan_steps j maxScan s p)) = true.
Proof.
  revert i s p. induction fuel as [| fuel IH]; intros i s p H; simpl in H.
  - destruct (scan_goes_on maxScan s) eqn:Hgo; [done |].
    injection H as <- <- <-. exists 0%nat. repeat split; [lia | done | lia].
  - destruct (scan_goes_on maxScan s) eqn:Hgo.
    + destruct (scan_step maxScan s p) as [s1 p1] eqn:Hstep.
      apply IH in H as (k & -> & Hk & Hstop & Hbefore).
      exists (S k). repeat split; [lia | by simpl; rewrite Hstep | done |].
      intros [| j] Hj; [done |]. simpl. rewrite Hstep. apply Hbefore. lia.
    + injection H as <- <- <-. exists 0%nat. repeat split; [lia | done | lia].
Qed.

Lemma scan_budget_decreases (maxScan : Z) (s : Scan) (p : Page) :
  0 <= noChangeCount s → noChangeCount s < 3 →
  (S (scan_budget (fst (scan_step maxScan s p)) (snd (scan_step maxScan s p)))
   ≤ scan_budget s p)%nat.
Proof.
  intros H0 H3.
  destruct (scan_step_heights maxScan s p) as (Hp & Hl & Hn).
  unfold scan_budget at 1. rewrite Hp, Hl, Z.eqb_refl.
  assert (Hn' : 0 <= noChangeCount (fst (scan_step maxScan s p)) <= noChangeCount s + 1)
    by (rewrite Hn; destruct (_ =? _); lia).
  unfold scan_budget, scrollBy in *.
  destruct (on_scroll p) as [| [d h] rest] eqn:Hs.
  - rewrite Hs. destruct (scrollHeight p =? lastHeight s); lia.
  - simpl. destruct rest; simpl; lia.
Qed.

Lemma collect_loop_returns (fuel : nat) (maxScan : Z) (i : nat) (s : Scan) (p : Page) :
  0 <= noChangeCount s → (scan_budget s p ≤ fuel)%nat →
  is_Some (collect_loop fuel maxScan i s p).
Proof.
  revert i s p. induction fuel as [| fuel IH]; intros i s p H0 Hb; simpl.
  - destruct (scan_goes_on maxScan s) eqn:Hgo; [| done].
    unfold scan_goes_on, MAX_NO_CHANGE in Hgo.
    apply andb_true_iff in Hgo as [_ H3%Z.ltb_lt].
    pose proof (scan_budget_decreases maxScan s p H0 H3). lia.
  - destruct (scan_goes_on maxScan s) eqn:Hgo; [| done].
    unfold scan_goes_on, MAX_NO_CHANGE in Hgo.
    apply andb_true_iff in Hgo as [_ H3%Z.ltb_lt].
    pose proof (scan_budget_decreases maxScan s p H0 H3) as Hdec.
    pose proof (scan_step_heights maxScan s p) as (_ & _ & Hn).
    destruct (scan_step maxScan s p) as [s1 p1]. simpl in *.
    apply IH; [| lia]. rewrite Hn. destruct (_ =? _); lia.
Qed.

Lemma scan_budget_start (p : Page) :
  (scan_budget scan_start p ≤ length (on_scroll p) + 4)%nat.
Proof.
  unfold scan_budget, scan_start. simpl.
  destruct (on_scroll p); simpl; [| lia].
  destruct (_ =? _); simpl; lia.
Qed.

Lemma noChangeCount_next (maxScan : Z) (p : Page) (j : nat) :
  (height_unchanged maxScan p j →
   noChangeCount (fst (scan_at maxScan p (S j)))
   = noChangeCount (fst (scan_at maxScan p j)) + 1)
  ∧ (¬ height_unchanged maxScan p j →
     noChangeCount (fst (scan_at maxScan p (S j))) = 0).
Proof.
  unfold height_unchanged, scan_at. rewrite scan_steps_S.
  destruct (scan_step_heights maxScan (fst (scan_steps j maxScan scan_start p))
              (snd (scan_steps j maxScan scan_start p))) as (-> & _ & ->).
  split; intros H.
  - by rewrite H, Z.eqb_refl.
  - destruct (_ =? _) eqn:E; [| done]. by apply Z.eqb_eq in E.
Qed.

Lemma noChangeCount_nonneg (maxScan : Z) (p : Page) (j : nat) :
  0 <= noChangeCount (fst (scan_at maxScan p j)).
Proof.
  apply scan_steps_within. repeat split; simpl; [apply NoDup_nil_2 | lia | lia].
Qed.

(** A counter of at least [m] means that the last [m] iterations all left
    the height unchanged. *)
Lemma noChangeCount_history (maxScan : Z) (p : Page) (m j : nat) :
  Z.of_nat m <= noChangeCount (fst (scan_at maxScan p j)) →
  (m ≤ j)%nat ∧ ∀ i : nat, (i < m)%nat → height_unchanged maxScan p (j - 1 - i).
Proof.
  revert j. induction m as [| m IH]; intros j H; [split; [lia | intros; lia] |].
  destruct j as [| j]; [simpl in H; lia |].
  destruct (noChangeCount_next maxScan p j) as [Hsame Hdiff].
  destruct (Z.eq_dec (scrollHeight (snd (scan_at maxScan p (S j))))
              (lastHeight (fst (scan_at maxScan p j)))) as [Hu | Hu];
    [| rewrite (Hdiff Hu) in H; lia].
  rewrite (Hsame Hu) in H.
  destruct (IH j ltac:(lia)) as [Hle Hprev].
  split; [lia |]. intros [| i] Hi.
  - by replace (S j - 1 - 0)%nat with j by lia.
  - replace (S j - 1 - S i)%nat with (j - 1 - i)%nat by lia. apply Hprev. lia.
Qed.

(** C8. A scan returns.  It runs some number [n] of iterations: before each
    of them the set is below the ceiling; when it stops, either the set has
    reached the ceiling or the last three iterations each measured an
    unchanged page height; three consecutive scroll steps without height
    change, wherever they occur, end the scan by the third of them, whatever
    the size of the set; the result has no duplicates and at most [maxScan]
    elements (none if [maxScan] is negative). *)
Theorem collectTweetIds_stops (maxScan : Z) (p : Page) :
  ∃ (n : nat) (s : Scan) (p' : Page),
    collectTweetIds maxScan p = Some (tweetUrlSet s, p')
    ∧ scan_at maxScan p n = (s, p')
    ∧ (∀ j : nat, (j < n)%nat →
         Z.of_nat (length (tweetUrlSet (fst (scan_at maxScan p j)))) < maxScan)
    ∧ (maxScan <= Z.of_nat (length (tweetUrlSet s))
       ∨ ((3 ≤ n)%nat
          ∧ height_unchanged maxScan p (n - 1)
          ∧ height_unchanged maxScan p (n - 2)
          ∧ height_unchanged maxScan p (n - 3)))
    ∧ (∀ k : nat,
         height_unchanged maxScan p k →
         height_unchanged maxScan p (k + 1) →
         height_unchanged maxScan p (k + 2) →
         (n ≤ k + 3)%nat)
    ∧ NoDup (tweetUrlSet s)
    ∧ Z.of_nat (length (tweetUrlSet s)) <= Z.max 0 maxScan.
Proof.
  destruct (collect_loop_returns (length (on_scroll p) + 4) maxScan 0 scan_start p)
    as [[[s p'] n] Hloop]; [simpl; lia | apply scan_budget_start |].
  destruct (collect_loop_spec _ _ _ _ _ _ _ _ Hloop) as (k & -> & Hk & Hstop & Hbefore).
  simpl. exists k, s, p'.
  assert (Hs : fst (scan_at maxScan p k) = s) by (unfold scan_at; by rewrite Hk).
  split; [unfold collectTweetIds; by rewrite Hloop |].
  split; [done |].
  split.
  { intros j Hj. specialize (Hbefore j Hj). unfold scan_goes_on in Hbefore.
    apply andb_true_iff in Hbefore as [Hlen _]. by apply Z.ltb_lt in Hlen. }
  split.
  { unfold scan_goes_on, MAX_NO_CHANGE in Hstop.
    apply andb_false_iff in Hstop as [Hlen | Hnc].
    - left. by apply Z.ltb_ge in Hlen.
    - right. apply Z.ltb_ge in Hnc. rewrite <- Hs in Hnc.
      destruct (noChangeCount_history maxScan p 3 k Hnc) as [Hle Hprev].
      split; [done |].
      pose proof (Hprev 0%nat ltac:(lia)) as H0.
      pose proof (Hprev 1%nat ltac:(lia)) as H1.
      pose proof (Hprev 2%nat ltac:(lia)) as H2.
      replace (k - 1 - 0)%nat with (k - 1)%nat in H0 by lia.
      replace (k - 1 - 1)%nat with (k - 2)%nat in H1 by lia.
      replace (k - 1 - 2)%nat with (k - 3)%nat in H2 by lia.
      done. }
  split.
  { intros j H1 H2 H3. destruct (decide (k ≤ j + 3)%nat) as [| Hgt]; [done |].
    exfalso. specialize (Hbefore (j + 3)%nat ltac:(lia)).
    unfold scan_goes_on, MAX_NO_CHANGE in Hbefore.
    apply andb_true_iff in Hbefore as [_ Hnc%Z.ltb_lt].
    pose proof (noChangeCount_nonneg maxScan p j) as Hj.
    apply (noChangeCount_next maxScan p j) in H1.
    apply (noChangeCount_next maxScan p (j + 1)) in H2.
    apply (noChangeCount_next maxScan p (j + 2)) in H3.
    replace (S (j + 2)) with (j + 3)%nat in H3 by lia.
    replace (S (j + 1)) with (j + 2)%nat in H2 by lia.
    replace (S j) with (j + 1)%nat in H1 by lia.
    fold (scan_at maxScan p (j + 3)) in Hnc. lia. }
  rewrite <- Hs.
  apply (scan_steps_within k maxScan scan_start p).
  repeat split; simpl; [apply NoDup_nil_2 | lia | lia].
Qed.

(** On a page that stops growing, the scan of the small site ends after
    four iterations with all five tweets, well below the ceiling. *)
Example collectTweetIds_small_site :
  collect_loop 4 500 0 scan_start (Scenario.showing Scenario.timeline)
  = Some ({| tweetUrlSet := ["https://x.com/u/status/1"; "https://x.com/u/status/2";
                             "https://x.com/u/status/3"; "https://x.com/u/status/4";
                             "https://x.com/u/status/5"];
             lastHeight := 1000; noChangeCount := 3 |},
          Scenario.showing Scenario.timeline, 4%nat).
Proof. vm_compute. reflexivity. Qed.

(** With a ceiling of three the same scan stops after its first iteration,
    with the first three tweets. *)
Example collectTweetIds_ceiling :
  collect_loop 4 3 0 scan_start (Scenario.showing Scenario.timeline)
  = Some ({| tweetUrlSet := ["https://x.com/u/status/1"; "https://x.com/u/status/2";
                             "https://x.com/u/status/3"];
             lastHeight := 1000; noChangeCount := 0 |},
          Scenario.showing Scenario.timeline, 1%nat).
Proof. vm_compute. reflexivity. Qed.

(** ** Run orchestrator *)

(** *** What one item does *)

Lemma on_result_events statusUrl statusId result r :
  events (on_result statusUrl statusId result r)
  = events r
    ++ (if ok result
        then events_on_ok statusUrl statusId result (processed r) (likedCount r)
        else [LogFailed statusUrl (reason result)]).
Proof.
  unfold on_result, events_on_ok, ledger_after.
  destruct (ok result) eqn:Hok; [| done].
  match goal with |- events (probe_rate_limit ?x) = _ =>
    destruct (probe_rate_limit_fields x) as (_ & _ & -> & _) end.
  destruct (Js.truthy statusId), (is_already result); simpl;
    rewrite <- ?app_assoc; done.
Qed.

Lemma process_item_step (cfg : Config) (statusUrl : string) (r : Run) :
  ItemStep cfg statusUrl r (snd (process_item cfg statusUrl r)).
Proof.
  unfold process_item.
  destruct (dayCount (processed r) >=? DAILY_CAP cfg) eqn:Hday.
  { by apply (StepCap _ _ _ _ LogDailyCap); [left | ..]. }
  destruct (likedCount r >=? TWEETS_TO_LIKE cfg) eqn:Hcount.
  { by apply (StepCap _ _ _ _ LogPerProfile); [right | ..]. }
  rewrite Z.geb_leb in Hday, Hcount. apply Z.leb_gt in Hday, Hcount.
  destruct (Js.truthy (statusIdOf statusUrl)
            && is_liked (processed r) (statusIdOf statusUrl)) eqn:Hknown.
  { apply andb_true_iff in Hknown as [_ Hknown]. by apply StepSkip. }
  apply StepDispatch; [done | done | done |].
  change (page (emit (Invoked statusUrl) r)) with (page r).
  destruct (likeTweetById statusUrl (page r)) as [[result | error] p'] eqn:Hcall;
    cbn [fst snd].
  - destruct (ok result) eqn:Hok.
    + apply HandledOk; [done | | |].
      * by rewrite on_result_processed.
      * rewrite on_result_likedCount, Hok. simpl.
        by destruct (is_already result).
      * rewrite on_result_events, Hok. simpl. by rewrite <- app_assoc.
    + apply HandledNotOk; [done | | |].
      * rewrite on_result_processed. unfold ledger_after. by rewrite Hok.
      * rewrite on_result_likedCount. by rewrite Hok.
      * rewrite on_result_events, Hok. simpl. by rewrite <- app_assoc.
  - apply HandledThrow; [done | done |]. simpl. by rewrite <- app_assoc.
Qed.

(** *** Invariants of the act loop *)

(** A property of the ledger, the per-target counter and the events so far
    that every item preserves, for items that pass the filter at the head of
    the [while] body, holds after any number of iterations of the loop. *)
Section ActLoop.

Variable cfg : Config.
Variable I : Ledger → Z → list Event → Prop.
Variable Q : string → Prop.

Hypothesis I_item :
  ∀ (statusUrl : string) (r r' : Run),
    holds I r → Q statusUrl → ItemStep cfg statusUrl r r' → holds I r'.
Hypothesis Q_filter :
  ∀ (r : Run) (url : string),
    holds I r → is_liked (processed r) (statusIdOf url) = false → Q url.

Lemma process_batch_holds (urls : list string) (r : Run) :
  holds I r → Forall Q urls → holds I (process_batch cfg urls r).
Proof.
  revert r. induction urls as [| u urls IH]; intros r Hr HQ; [done |].
  apply Forall_cons in HQ as [Hu Hrest]. cbn [process_batch].
  pose proof (process_item_step cfg u r) as Hstep.
  destruct (process_item cfg u r) as [[|] r'];
    cbn [snd] in Hstep; eauto using I_item.
Qed.

Lemma remaining_passes (r : Run) : holds I r → Forall Q (remaining r).
Proof.
  intros Hr. apply Forall_forall. intros u Hu.
  apply list_elem_of_In, filter_In in Hu as [_ Hu].
  apply andb_true_iff in Hu as [Hu _].
  apply (Q_filter r u Hr). by apply negb_true_iff.
Qed.

Lemma recollect_holds (r r' : Run) :
  holds I r → recollect cfg r = Some r' → holds I r'.
Proof.
  unfold recollect. intros Hr H.
  destruct (collectTweetIds _ _) as [[newUrls p'] |]; [| done].
  by injection H as <-.
Qed.

Lemma act_loop_holds (fuel : nat) (r : Run) :
  holds I r → holds I (snd (act_loop fuel cfg r)).
Proof.
  revert r. induction fuel as [| fuel IH]; intros r Hr; cbn [act_loop].
  - by destruct (_ && _).
  - destruct (_ && _); [| done].
    destruct (length (remaining r) =? 0)%nat.
    + destruct (recollect cfg r) as [r' |] eqn:Hre; [| done].
      eauto using recollect_holds.
    + pose proof (process_batch_holds (remaining r) r Hr (remaining_passes r Hr)) as H1.
      destruct (quota_left cfg (process_batch cfg (remaining r) r)); [| by apply IH].
      destruct (length _ =? 0)%nat; [| by apply IH].
      destruct (recollect cfg (process_batch cfg (remaining r) r)) as [r2 |] eqn:Hre;
        [| done].
      eauto using recollect_holds.
Qed.

End ActLoop.

(** [processUrl] either gives up before the act loop, with the ledger it was
    given and nothing done, or runs the act loop on that ledger. *)
Lemma processUrl_run (fuel : nat) (cfg : Config) (url : string)
    (processed0 : Ledger) (p : Page) :
  let r := snd (processUrl fuel cfg url processed0 p) in
  (∃ p', r = start_run processed0 [] p')
  ∨ (∃ urls p', r = snd (act_loop fuel cfg (start_run processed0 urls p'))).
Proof.
  unfold processUrl.
  destruct (robustGoto url p) as [[b | e] p1]; [| left; by eexists].
  destruct (isLoginPage p1); [left; by eexists |].
  destruct (isRateLimited p1) as [limited p2].
  destruct (if limited then isRateLimited (reload p2) else (false, p2)) as [still p3].
  destruct still; [left; by eexists |].
  destruct (collectTweetIds (MAX_SCAN cfg) p3) as [[urls p4] |]; [| left; by eexists].
  right. exists urls, p4.
  by destruct (act_loop fuel cfg (start_run processed0 urls p4)) as [[|] r].
Qed.

(** *** Quota *)

Lemma ledger_after_dayCount statusId result l :
  dayCount (ledger_after statusId result l)
  = if ok result && negb (is_already result) then dayCount l + 1 else dayCount l.
Proof.
  unfold ledger_after.
  by destruct (ok result), (is_already result), (Js.truthy statusId);
    rewrite ?(proj1 (set_liked_spec _ _)).
Qed.

Lemma seqZ_snoc (n : Z) : 0 <= n → seqZ 1 (n + 1) = seqZ 1 n ++ [n + 1].
Proof.
  intros Hn. rewrite seqZ_app by lia. f_equal.
  rewrite seqZ_cons by lia. rewrite seqZ_nil by lia. f_equal. lia.
Qed.

Lemma likes_of_quiet (evs : list Event) (ev : Event) :
  like_of ev = None → likes_of (evs ++ [ev]) = likes_of evs.
Proof.
  intros H. unfold likes_of. rewrite omap_app. simpl. rewrite H.
  apply app_nil_r.
Qed.

Lemma likes_of_on_ok statusUrl statusId result l n :
  likes_of (Invoked statusUrl :: events_on_ok statusUrl statusId result l n)
  = if is_already result then [] else [(n + 1, dayCount l + 1)].
Proof.
  unfold likes_of, events_on_ok.
  by destruct (is_already result), (Js.truthy statusId).
Qed.

Lemma quota_inv_item (cfg : Config) (d0 : Z) (statusUrl : string) (r r' : Run) :
  holds (quota_inv cfg d0) r → True → ItemStep cfg statusUrl r r' →
  holds (quota_inv cfg d0) r'.
Proof.
  unfold holds. intros (Hday & Hn & Hsum & Hlikes & Hall) _ Hstep.
  destruct Hstep as [ev Hev Hp Hc He | Hknown Hp Hc He | Hd Hl Hnew Hh].
  - rewrite Hp, Hc, He. repeat split; try done; try lia.
    + rewrite likes_of_quiet; [done | by destruct Hev as [-> | ->]].
    + apply Forall_app. split; [done |]. apply Forall_singleton.
      by destruct Hev as [-> | ->].
  - rewrite Hp, Hc, He. repeat split; try done; try lia.
    + by rewrite likes_of_quiet.
    + apply Forall_app. split; [done |]. by apply Forall_singleton.
  - destruct Hh as [result Hok Hp Hc He | result Hok Hp Hc He | error Hp Hc He].
    + rewrite Hp, Hc, He.
      pose proof (ledger_after_dayCount (statusIdOf statusUrl) result (processed r)) as Hafter.
      rewrite Hok in Hafter. simpl in Hafter.
      assert (Hcap : dayCount (ledger_after (statusIdOf statusUrl) result (processed r))
                     <= DAILY_CAP cfg)
        by (rewrite Hafter; destruct (is_already result); simpl; lia).
      repeat split.
      * done.
      * destruct (is_already result); lia.
      * destruct (is_already result); lia.
      * rewrite Hafter. destruct (is_already result); simpl; lia.
      * unfold likes_of in *. rewrite omap_app.
        fold (likes_of (Invoked statusUrl
                :: events_on_ok statusUrl (statusIdOf statusUrl) result
                     (processed r) (likedCount r))).
        rewrite likes_of_on_ok, Hlikes.
        destruct (is_already result); [apply app_nil_r |].
        rewrite seqZ_snoc, fmap_app by lia. simpl. do 3 f_equal. lia.
      * apply Forall_app. split; [done |].
        apply Forall_cons. split; [done |]. unfold events_on_ok.
        repeat (apply Forall_app; split);
          destruct (is_already result), (Js.truthy (statusIdOf statusUrl));
          repeat (apply Forall_cons; split); try apply Forall_nil; simpl; try done;
          try lia.
    + rewrite Hp, Hc, He. repeat split; try done; try lia.
      * change [Invoked statusUrl; LogFailed statusUrl (reason result)]
          with ([Invoked statusUrl] ++ [LogFailed statusUrl (reason result)]).
        rewrite app_assoc. by rewrite !likes_of_quiet.
      * apply Forall_app. split; [done |]. by repeat (apply Forall_cons; split).
    + rewrite Hp, Hc, He. repeat split; try done; try lia.
      * change [Invoked statusUrl; LogError statusUrl error]
          with ([Invoked statusUrl] ++ [LogError statusUrl error]).
        rewrite app_assoc. by rewrite !likes_of_quiet.
      * apply Forall_app. split; [done |]. by repeat (apply Forall_cons; split).
Qed.

Lemma quota_inv_start (cfg : Config) (l0 : Ledger) (urls : list string) (p : Page) :
  dayCount l0 <= DAILY_CAP cfg →
  holds (quota_inv cfg (dayCount l0)) (start_run l0 urls p).
Proof.
  intros H. unfold holds, quota_inv. simpl.
  repeat split; try lia; try reflexivity. constructor.
Qed.

Lemma processUrl_quota (fuel : nat) (cfg : Config) (url : string)
    (l0 : Ledger) (p : Page) :
  dayCount l0 <= DAILY_CAP cfg →
  holds (quota_inv cfg (dayCount l0)) (snd (processUrl fuel cfg url l0 p)).
Proof.
  intros H0.
  destruct (processUrl_run fuel cfg url l0 p) as [[p' Hr] | (urls & p' & Hr)];
    cbv zeta in Hr; rewrite Hr.
  - by apply quota_inv_start.
  - apply (act_loop_holds cfg _ (λ _, True)).
    + apply quota_inv_item.
    + done.
    + by apply quota_inv_start.
Qed.

(** Across the targets of one launch the ledger stays within the daily cap,
    at every assignment and every save. *)
Lemma run_targets_within_cap (fuel : nat) (cfg : Config) (urls : list string)
    (l0 : Ledger) (p : Page) :
  dayCount l0 <= DAILY_CAP cfg →
  let '(l, _, evs) := run_targets fuel cfg urls l0 p in
  dayCount l <= DAILY_CAP cfg
  ∧ Forall (Forall (event_within cfg)) evs.
Proof.
  revert l0 p. induction urls as [| url urls IH]; intros l0 p H0; cbn [run_targets].
  - split; [done | constructor].
  - destruct (processUrl_quota fuel cfg url l0 p H0) as (Hday & _ & _ & _ & Hall).
    destruct (dayCount _ >=? DAILY_CAP cfg).
    + split; [done |]. by repeat constructor.
    + specialize (IH _ (page (snd (processUrl fuel cfg url l0 p))) Hday).
      destruct (run_targets fuel cfg urls _ _) as [[l p'] evs].
      destruct IH as [Hl Hevs]. split; [done |]. by constructor.
Qed.

(** A launch that finds yesterday's ledger, or today's within the cap,
    ends within the cap, for any non-negative daily cap. *)
Lemma main_within_cap (fuel : nat) (cfg : Config) (f : LedgerFile) (iso_now : string)
    (urls : list string) (p : Page) :
  0 <= DAILY_CAP cfg →
  dayStart (read_ledger f) ≠ today_of iso_now
  ∨ dayCount (read_ledger f) <= DAILY_CAP cfg →
  dayCount (fst (fst (main fuel cfg f iso_now urls p))) <= DAILY_CAP cfg.
Proof.
  intros Hcap Hstored. unfold main.
  assert (H0 : dayCount (loadProcessed f iso_now) <= DAILY_CAP cfg).
  { unfold loadProcessed. case_bool_decide as Hd; [done |].
    by destruct Hstored. }
  pose proof (run_targets_within_cap fuel cfg (slice0 (ROWS_PER_LAUNCH cfg) urls)
                _ p H0) as H.
  destruct (run_targets _ _ _ _ _) as [[l p'] evs]. by destruct H.
Qed.

(** *** Dedup *)

(** The ledger only gains entries. *)
Lemma ledger_after_keeps statusId result l (id : string) :
  liked l !! id = Some true →
  liked (ledger_after statusId result l) !! id = Some true.
Proof.
  intros H.
  assert (Hset : ∀ k l', liked l' !! id = Some true →
                         liked (set_liked k l') !! id = Some true).
  { intros k l' Hl'.
    destruct (set_liked_spec k l') as (_ & _ & [-> | (-> & _)]); [| done].
    destruct (decide (k = id)) as [-> | Hne];
      [by rewrite lookup_insert_eq | by rewrite lookup_insert_ne]. }
  unfold ledger_after.
  destruct (ok result), (is_already result), (Js.truthy statusId); try done;
    by apply Hset.
Qed.

Lemma dedup_inv_item (cfg : Config) (l0 : Ledger) (statusUrl : string) (r r' : Run) :
  holds (dedup_inv l0) r →
  liked l0 !! Js.prop_key (statusIdOf statusUrl) ≠ Some true →
  ItemStep cfg statusUrl r r' →
  holds (dedup_inv l0) r'.
Proof.
  unfold holds. intros [Hmono Hall] Hfresh Hstep.
  destruct Hstep as [ev Hev Hp Hc He | Hknown Hp Hc He | Hd Hl Hnew Hh].
  - rewrite Hp, He. split; [done |].
    apply Forall_app. split; [done |]. apply Forall_singleton.
    by destruct Hev as [-> | ->].
  - rewrite Hp, He. split; [done |].
    apply Forall_app. split; [done |]. by apply Forall_singleton.
  - destruct Hh as [result Hok Hp Hc He | result Hok Hp Hc He | error Hp Hc He];
      rewrite Hp, He.
    + split; [intros id Hid; by apply ledger_after_keeps, Hmono |].
      apply Forall_app. split; [done |]. apply Forall_cons. split; [done |].
      unfold events_on_ok.
      destruct (is_already result), (Js.truthy (statusIdOf statusUrl));
        by repeat (apply Forall_cons; split).
    + split; [done |]. apply Forall_app. split; [done |].
      by repeat (apply Forall_cons; split).
    + split; [done |]. apply Forall_app. split; [done |].
      by repeat (apply Forall_cons; split).
Qed.

Lemma dedup_inv_filter (l0 : Ledger) (r : Run) (url : string) :
  holds (dedup_inv l0) r →
  is_liked (processed r) (statusIdOf url) = false →
  liked l0 !! Js.prop_key (statusIdOf url) ≠ Some true.
Proof.
  intros [Hmono _] Hnot Hin. apply Hmono in Hin.
  unfold is_liked in Hnot. by rewrite Hin in Hnot.
Qed.

(** The filter at the head of the [while] body drops every URL whose key
    the ledger holds. *)
Lemma remaining_excludes_liked (r : Run) (url : string) :
  is_liked (processed r) (statusIdOf url) = true → url ∉ remaining r.
Proof.
  intros Hl Hin. apply list_elem_of_In, filter_In in Hin as [_ Hin].
  by rewrite Hl in Hin.
Qed.

(** The re-check in the [for] body: an item with a non-empty identifier that
    the ledger holds is not dispatched. *)
Lemma process_item_known (cfg : Config) (statusUrl : string) (r : Run) :
  Js.truthy (statusIdOf statusUrl) = true →
  is_liked (processed r) (statusIdOf statusUrl) = true →
  ∃ ev : Event,
    events (snd (process_item cfg statusUrl r)) = events r ++ [ev]
    ∧ (ev = LogDailyCap ∨ ev = LogPerProfile ∨ ev = LogSkip statusUrl).
Proof.
  intros Ht Hl.
  destruct (process_item_step cfg statusUrl r)
    as [ev Hev Hp Hc He | Hknown Hp Hc He | Hd Hn Hnew Hh].
  - exists ev. split; [done |]. destruct Hev; auto.
  - exists (LogSkip statusUrl). auto.
  - by rewrite Ht, Hl in Hnew.
Qed.

(** C4. An identifier that the ledger holds when [processUrl] starts is
    never handed to the action executor: no call of [likeTweetById] is made
    on a URL whose extracted identifier is that one.  Such a URL is dropped
    by the filter at the head of the loop body whenever the ledger holds its
    identifier, and, the identifier being non-empty, the re-check in the
    [for] body logs one line for it and dispatches nothing. *)
Theorem dedup_invariant (fuel : nat) (cfg : Config) (url : string)
    (l0 : Ledger) (p : Page) (id statusUrl : string) :
  liked l0 !! id = Some true →
  statusIdOf statusUrl = Some id →
  (Invoked statusUrl ∉ events (snd (processUrl fuel cfg url l0 p)))
  ∧ (∀ r : Run, liked (processed r) !! id = Some true → statusUrl ∉ remaining r)
  ∧ (∀ r : Run, id ≠ "" → liked (processed r) !! id = Some true →
       ∃ ev : Event,
         events (snd (process_item cfg statusUrl r)) = events r ++ [ev]
         ∧ (ev = LogDailyCap ∨ ev = LogPerProfile ∨ ev = LogSkip statusUrl)).
Proof.
  intros Hid Hurl. split; [| split].
  - set (r := snd (processUrl fuel cfg url l0 p)).
    assert (Hinv : holds (dedup_inv l0) r).
    { assert (Hstart : ∀ urls p', holds (dedup_inv l0) (start_run l0 urls p'))
        by (intros; split; [done | constructor]).
      destruct (processUrl_run fuel cfg url l0 p) as [[p' Hr] | (urls & p' & Hr)];
        fold r in Hr; rewrite Hr; [done |].
      apply (act_loop_holds cfg _
               (λ u, liked l0 !! Js.prop_key (statusIdOf u) ≠ Some true)).
      - apply dedup_inv_item.
      - apply dedup_inv_filter.
      - done. }
    destruct Hinv as [_ Hall]. rewrite Forall_forall in Hall.
    intros Hin. apply Hall in Hin. simpl in Hin. by rewrite Hurl in Hin.
  - intros r Hr. apply remaining_excludes_liked.
    unfold is_liked. rewrite Hurl.
      change (Js.prop_key (Some id)) with id. by rewrite Hr.
  - intros r Hne Hr. apply process_item_known.
    + rewrite Hurl. by destruct id.
    + unfold is_liked. rewrite Hurl.
      change (Js.prop_key (Some id)) with id. by rewrite Hr.
Qed.

Lemma dedup_invariant_witness :
  Invoked "https://x.com/u/status/1"
  ∉ events (snd (processUrl 10 Scenario.config "https://x.com/u"
                   {| liked := {[ "1" := true ]}; dayCount := 1; dayStart := "" |}
                   Scenario.site)).
Proof.
  apply (dedup_invariant 10 Scenario.config "https://x.com/u"
           {| liked := {[ "1" := true ]}; dayCount := 1; dayStart := "" |}
           Scenario.site "1" "https://x.com/u/status/1");
    reflexivity.
Defined.

(** With status 1 in the ledger the run of the small site likes the next
    two tweets instead. *)
Example dedup_small_site :
  let r := snd (processUrl 10 Scenario.config "https://x.com/u"
                  {| liked := {[ "1" := true ]}; dayCount := 1; dayStart := "" |}
                  Scenario.site) in
  List.filter (λ ev, match ev with Invoked _ => true | _ => false end) (events r)
  = [Invoked "https://x.com/u/status/2"; Invoked "https://x.com/u/status/3"]
  ∧ dayCount (processed r) = 3.
Proof. vm_compute. done. Qed.

(** A URL whose identifier is a name that every object inherits reads as
    liked on an empty ledger, and is not dispatched. *)
Example inherited_key_reads_as_liked :
  is_liked zero_ledger (statusIdOf "https://x.com/u/status/constructor") = true
  ∧ remaining (start_run zero_ledger ["https://x.com/u/status/constructor"]
                 Scenario.blank) = [].
Proof. by vm_compute. Qed.

(** *** Failure of one item *)

Lemma drop_own_length {A} (l k : list A) : drop (length l) (l ++ k) = k.
Proof. by rewrite drop_app_length. Qed.

Lemma last_events_on_ok statusUrl statusId result l n :
  last (Invoked statusUrl :: events_on_ok statusUrl statusId result l n)
  = Some (Saved (ledger_after statusId result l)).
Proof.
  unfold events_on_ok. by destruct (is_already result), (Js.truthy statusId).
Qed.

(** C10. For one item of the [for] loop, whatever the state of the run:
    if the action executor was called and threw, or returned [ok = false],
    the ledger and the per-target counter are as before, no field of the
    ledger was assigned and [saveProcessed] was not called; the same holds
    when the executor was not called at all.  If it returned [ok = true],
    the ledger is the old one with [liked[id]] set (for a non-empty id) and
    [dayCount] one higher exactly when [already] is not set, and the last
    thing the item did before pausing was to save that ledger. *)
Theorem item_failure_atomic (cfg : Config) (statusUrl : string) (r : Run) :
  let r' := snd (process_item cfg statusUrl r) in
  let appended := drop (length (events r)) (events r') in
  events r' = events r ++ appended
  ∧ (Invoked statusUrl ∈ appended →
       match fst (likeTweetById statusUrl (page r)) with
       | Returns result =>
           if ok result then
             processed r' = ledger_after (statusIdOf statusUrl) result (processed r)
             ∧ dayCount (processed r')
               = dayCount (processed r) + (if is_already result then 0 else 1)
             ∧ likedCount r' = likedCount r + (if is_already result then 0 else 1)
             ∧ last appended = Some (Saved (processed r'))
           else untouched r r' appended
       | Throws _ => untouched r r' appended
       end)
  ∧ (Invoked statusUrl ∉ appended → untouched r r' appended).
Proof.
  intros r' appended. subst appended.
  pose proof (process_item_step cfg statusUrl r) as Hstep. fold r' in Hstep.
  assert (Hquiet : ∀ evs : list Event,
            (∀ ev, ev ∈ evs → match ev with Saved _ | Assigned _ => False | _ => True end) →
            ∀ l : Ledger, (Saved l ∉ evs) ∧ (Assigned l ∉ evs)).
  { intros evs H l. split; intros Hin; by apply H in Hin. }
  destruct Hstep as [ev Hev Hp Hc He | Hknown Hp Hc He | Hd Hl Hnew Hh].
  - rewrite He, drop_own_length.
    assert (Hno : Invoked statusUrl ∉ [ev]).
    { intros Hin%list_elem_of_singleton. by destruct Hev as [-> | ->]. }
    split; [done |]. split; [done |]. intros _. repeat split; try done;
      apply Hquiet; intros ev' ->%list_elem_of_singleton; by destruct Hev as [-> | ->].
  - rewrite He, drop_own_length.
    assert (Hno : Invoked statusUrl ∉ [LogSkip statusUrl])
      by (by intros Hin%list_elem_of_singleton).
    split; [done |]. split; [done |]. intros _. repeat split; try done;
      apply Hquiet; by intros ev' ->%list_elem_of_singleton.
  - remember (fst (likeTweetById statusUrl (page r))) as outcome eqn:Hout.
    destruct Hh as [result Hok Hp Hc He | result Hok Hp Hc He | error Hp Hc He];
      rewrite He, drop_own_length; (split; [done |]).
    + split.
      * intros _. rewrite Hok, Hp, Hc, ledger_after_dayCount, Hok, last_events_on_ok.
        by destruct (is_already result); simpl; repeat split; try lia.
      * intros Hno. destruct Hno. apply list_elem_of_here.
    + split.
      * intros _. rewrite Hok. repeat split; try done; apply Hquiet;
          intros ev' Hin; repeat (apply elem_of_cons in Hin as [-> | Hin]; [done |]);
          by apply elem_of_nil in Hin.
      * intros Hno. destruct Hno. apply list_elem_of_here.
    + split.
      * intros _. repeat split; try done; apply Hquiet;
          intros ev' Hin; repeat (apply elem_of_cons in Hin as [-> | Hin]; [done |]);
          by apply elem_of_nil in Hin.
      * intros Hno. destruct Hno. apply list_elem_of_here.
Qed.

Example likeTweetById_throws_after_three :
  fst (likeTweetById "https://x.com/u/status/1" Scenario.detaching)
  = Throws (Error "Element is not attached to the DOM")
  ∧ clicks (snd (likeTweetById "https://x.com/u/status/1" Scenario.detaching)) = 3%nat.
Proof. by vm_compute. Qed.

Lemma item_failure_atomic_witness :
  untouched
    (start_run Scenario.today [] Scenario.detaching)
    (snd (process_item Scenario.config "https://x.com/u/status/1"
            (start_run Scenario.today [] Scenario.detaching)))
    [Invoked "https://x.com/u/status/1";
     LogError "https://x.com/u/status/1" (Error "Element is not attached to the DOM")].
Proof.
  destruct (item_failure_atomic Scenario.config "https://x.com/u/status/1"
              (start_run Scenario.today [] Scenario.detaching)) as (_ & H & _).
  assert (Hin : Invoked "https://x.com/u/status/1"
                ∈ drop (length (events (start_run Scenario.today [] Scenario.detaching)))
                    (events (snd (process_item Scenario.config "https://x.com/u/status/1"
                                    (start_run Scenario.today [] Scenario.detaching)))))
    by (vm_compute; apply list_elem_of_here).
  exact (H Hin).
Defined.

(** * Further properties *)

(** ** The page: only a click counts as one *)

Lemma navigate_clicks (url : string) (p : Page) :
  clicks (snd (navigate url p)) = clicks p.
Proof. unfold navigate. by destruct (on_goto p) as [| [d h login | m] rest]. Qed.

Lemma scrollBy_clicks (p : Page) : clicks (scrollBy p) = clicks p.
Proof. unfold scrollBy. by destruct (on_scroll p) as [| [d h] rest]. Qed.

Lemma isRateLimited_clicks (p : Page) : clicks (snd (isRateLimited p)) = clicks p.
Proof. unfold isRateLimited. by destruct (on_probe p). Qed.

Lemma reload_clicks (p : Page) : clicks (reload p) = clicks p.
Proof. unfold reload. by destruct (on_goto p) as [| [d h login | m] rest]. Qed.

Lemma navigate_landed (url : string) (p : Page) :
  landed (snd (navigate url p)) = landed p.
Proof. unfold navigate. by destruct (on_goto p) as [| [d h login | m] rest]. Qed.

Lemma scrollBy_landed (p : Page) : landed (scrollBy p) = landed p.
Proof. unfold scrollBy. by destruct (on_scroll p) as [| [d h] rest]. Qed.

Lemma isRateLimited_landed (p : Page) : landed (snd (isRateLimited p)) = landed p.
Proof. unfold isRateLimited. by destruct (on_probe p). Qed.

Lemma reload_landed (p : Page) : landed (reload p) = landed p.
Proof. unfold reload. by destruct (on_goto p) as [| [d h login | m] rest]. Qed.

(** A real click is counted, resolves or rejects with an [Error], and is
    counted as landed exactly when it resolves. *)
Lemma click_spec (p : Page) :
  clicks (snd (click p)) = S (clicks p)
  ∧ (fst (click p) = Returns () ∧ landed (snd (click p)) = S (landed p)
     ∨ (∃ m : string, fst (click p) = Throws (Error m))
       ∧ landed (snd (click p)) = landed p).
Proof. unfold click. destruct (on_click p) as [| [[| m] d] rest]; simpl; eauto. Qed.

(** ** Action executor: what a call can come to *)

(** The retry loop entered with [n] iterations left, that is with
    [retry = 3 - n]. *)
Lemma like_retries_outcomes (n : nat) (statusUrl : string) (p : Page) :
  (1 ≤ n ≤ 3)%nat →
  let o := fst (like_retries n (3 - Z.of_nat n) statusUrl p) in
  let p' := snd (like_retries n (3 - Z.of_nat n) statusUrl p) in
  (clicks p ≤ clicks p' ≤ clicks p + n)%nat
  ∧ match o with
    | Returns result =>
        result = result_not_found ∨ result = result_already
        ∨ (result = result_liked ∧ (clicks p < clicks p')%nat)
    | Throws e =>
        (∃ m : string, e = Error m)
        ∧ (css_plain statusUrl = true → clicks p' = (clicks p + n)%nat)
    end.
Proof.
  revert p. induction n as [| n IH]; intros p Hn; [lia |].
  cbn [like_retries].
  destruct (refusal statusUrl p) as [message |] eqn:Hrefuse.
  { assert (Hodd : css_plain statusUrl = true → False).
    { intros Hplain. destruct (locate_plain statusUrl p Hplain) as [_ H]. congruence. }
    destruct (3 - Z.of_nat (S n) <? 2) eqn:Hretry.
    - apply Z.ltb_lt in Hretry.
      replace (3 - Z.of_nat (S n) + 1) with (3 - Z.of_nat n) by lia.
      assert (Hn' : (1 ≤ n ≤ 3)%nat) by lia.
      specialize (IH p Hn'). cbv zeta in IH.
      destruct (like_retries n (3 - Z.of_nat n) statusUrl p) as [[result | e'] p2];
        cbn [fst snd] in *; destruct IH as [Hclicks Hrest]; (split; [lia |]);
        [done |].
      destruct Hrest as [Hm _]. split; [done |]. intros Hplain. by destruct Hodd.
    - cbn [fst snd]. split; [lia |]. split; [by eexists |].
      intros Hplain. by destruct Hodd. }
  destruct (missing (find_target statusUrl p)); [simpl; split; [lia | auto] |].
  destruct (unlike_visible (find_target statusUrl p)); [simpl; split; [lia | auto] |].
  destruct (click_spec p) as [Hc Hout].
  destruct (click p) as [[[] | e] p1]; cbn [fst snd] in *.
  { split; [lia |]. right. right. split; [done | lia]. }
  destruct (3 - Z.of_nat (S n) <? 2) eqn:Hretry.
  - apply Z.ltb_lt in Hretry.
    replace (3 - Z.of_nat (S n) + 1) with (3 - Z.of_nat n) by lia.
    assert (Hn' : (1 ≤ n ≤ 3)%nat) by lia.
    specialize (IH p1 Hn'). cbv zeta in IH.
    destruct (like_retries n (3 - Z.of_nat n) statusUrl p1) as [[result | e'] p2];
      cbn [fst snd] in *; destruct IH as [Hclicks Hrest]; (split; [lia |]).
    + destruct Hrest as [-> | [-> | [-> Hlt]]]; auto.
      right. right. split; [done | lia].
    + destruct Hrest as [Hm Hplain]. split; [done |].
      intros H. specialize (Hplain H). lia.
  - apply Z.ltb_ge in Hretry. cbn [fst snd].
    split; [lia |]. destruct Hout as [[H _] | [[m H] _]]; [done |].
    injection H as ->. split; [by eexists | intros _; lia].
Qed.

(** A call lands one click when its outcome is counted as a like, and none
    otherwise, whatever the number of iterations and the value of
    [retry]. *)
Lemma like_retries_landed (n : nat) (retry : Z) (statusUrl : string) (p : Page) :
  landed (snd (like_retries n retry statusUrl p))
  = (landed p + if counted (fst (like_retries n retry statusUrl p)) then 1 else 0)%nat.
Proof.
  revert retry p. induction n as [| n IH]; intros retry p; [simpl; lia |].
  cbn [like_retries].
  destruct (refusal statusUrl p) as [message |].
  { destruct (retry <? 2); [apply IH | simpl; lia]. }
  destruct (missing (find_target statusUrl p)); [simpl; lia |].
  destruct (unlike_visible (find_target statusUrl p)); [simpl; lia |].
  destruct (click_spec p) as [_ Hout].
  destruct (click p) as [[[] | e] p1]; cbn [fst snd] in *.
  { destruct Hout as [[_ ->] | [[m H] _]]; [simpl; lia | done]. }
  assert (Hsame : landed p1 = landed p) by (by destruct Hout as [[H _] | [_ H]]).
  destruct (retry <? 2); [rewrite IH, Hsame; done | simpl; lia].
Qed.

Lemma likeTweetById_landed (statusUrl : string) (p : Page) :
  landed (snd (likeTweetById statusUrl p))
  = (landed p + if counted (fst (likeTweetById statusUrl p)) then 1 else 0)%nat.
Proof.
  unfold likeTweetById.
  destruct (refusal statusUrl p); [simpl; lia |].
  destruct (missing (find_target statusUrl p)); [simpl; lia |].
  apply like_retries_landed.
Qed.

(** X1. Whatever the page does, a call of [likeTweetById] ends in one of
    four ways: it returns the not-found result, the already-liked result or
    the liked result, or it throws.  It never returns the result with reason
    "click-failed" that follows its retry loop.  It makes at most three real
    clicks.  The liked result comes after at least one click, and exactly
    one click of the call has resolved then; with every other outcome none
    has.  What it throws is an [Error] (never [null]): the rejection of a
    count of its locators, possibly before any click, or that of the third
    real click.  For a URL that the selectors hold as it is no count rejects,
    and the call throws only after exactly three rejected clicks. *)
Theorem likeTweetById_outcomes (statusUrl : string) (p : Page) :
  let o := fst (likeTweetById statusUrl p) in
  let p' := snd (likeTweetById statusUrl p) in
  (clicks p ≤ clicks p' ≤ clicks p + 3)%nat
  ∧ match o with
    | Returns result =>
        result ≠ result_click_failed
        ∧ (result = result_not_found ∧ landed p' = landed p
           ∨ result = result_already ∧ landed p' = landed p
           ∨ result = result_liked ∧ (clicks p < clicks p')%nat
             ∧ landed p' = S (landed p))
    | Throws e =>
        landed p' = landed p
        ∧ (∃ m : string, e = Error m)
        ∧ (css_plain statusUrl = true → clicks p' = (clicks p + 3)%nat)
    end.
Proof.
  cbv zeta. pose proof (likeTweetById_landed statusUrl p) as Hlanded.
  revert Hlanded. unfold likeTweetById.
  destruct (refusal statusUrl p) as [message |] eqn:Hrefuse.
  { cbn [fst snd]. intros _. split; [lia |]. split; [done |]. split; [by eexists |].
    intros Hplain. destruct (locate_plain statusUrl p Hplain) as [_ H]. congruence. }
  destruct (missing (find_target statusUrl p)).
  { cbn [fst snd]. intros _. split; [lia |]. split; [done | auto]. }
  pose proof (like_retries_outcomes 3 statusUrl p) as H.
  change (3 - Z.of_nat 3) with 0 in H. cbv zeta in H.
  destruct (like_retries 3 0 statusUrl p) as [[result | e] p'];
    cbn [fst snd] in *; intros Hlanded;
    (destruct H as [Hclicks Hrest]; [lia |]); (split; [done |]).
  - destruct Hrest as [-> | [-> | [-> Hlt]]]; cbn in Hlanded;
      (split; [done |]).
    + left. split; [done | lia].
    + right. left. split; [done | lia].
    + right. right. split; [done |]. split; [done | lia].
  - cbn in Hlanded. split; [lia | done].
Qed.

(** What the orchestrator needs of a call: the page has seen at most three
    more clicks, and at least one more when the result counts as a like. *)
Lemma likeTweetById_clicks (statusUrl : string) (p : Page) :
  let o := fst (likeTweetById statusUrl p) in
  let p' := snd (likeTweetById statusUrl p) in
  (clicks p ≤ clicks p' ≤ clicks p + 3)%nat
  ∧ ∀ result : LikeResult,
      o = Returns result → ok result && negb (is_already result) = true →
      (clicks p < clicks p')%nat.
Proof.
  unfold likeTweetById.
  destruct (refusal statusUrl p) as [message |].
  { simpl. split; [lia | done]. }
  destruct (missing (find_target statusUrl p)).
  { simpl. split; [lia |]. by intros result [= <-]. }
  pose proof (like_retries_outcomes 3 statusUrl p) as H.
  change (3 - Z.of_nat 3) with 0 in H. cbv zeta in *.
  destruct (like_retries 3 0 statusUrl p) as [[result | e] p'];
    cbn [fst snd] in *; (destruct H as [Hclicks Hrest]; [lia |]);
    (split; [done |]); [| done].
  intros result' [= <-] Hcounted.
  by destruct Hrest as [-> | [-> | [-> Hlt]]].
Qed.

(** X2. A click that is rejected but took effect is reported as already
    liked: when the first real click throws and the article found again for
    the URL then shows a visible unlike control, [likeTweetById] returns
    [{ ok: true, already: true }] after that one click, without a second
    one. *)
Theorem likeTweetById_rejected_click_took_effect (statusUrl : string) (p : Page)
    (e : Thrown) :
  missing (find_target statusUrl p) = false →
  unlike_visible (find_target statusUrl p) = false →
  fst (click p) = Throws e →
  unlike_visible (find_target statusUrl (snd (click p))) = true →
  likeTweetById statusUrl p = (Returns result_already, snd (click p))
  ∧ clicks (snd (click p)) = S (clicks p).
Proof.
  intros Hfound Hnot Hthrow Hnow.
  split; [| apply click_spec].
  unfold likeTweetById. cbn [like_retries].
  rewrite (found_not_refused statusUrl p Hfound), Hfound, Hnot.
  destruct (click p) as [o p1]; cbn [fst snd] in *. subst o.
  change (0 <? 2) with true. cbv iota.
  assert (Hthere : missing (find_target statusUrl p1) = false).
  { unfold unlike_visible in Hnow. by destruct (find_target statusUrl p1) as [[| x t] |]. }
  by rewrite (found_not_refused statusUrl p1 Hthere), Hthere, Hnow.
Qed.

Lemma likeTweetById_rejected_click_took_effect_witness :
  let p := {| dom := [Scenario.tweet "/u/status/1" false];
              scrollHeight := 1000; login_wall := false;
              on_goto := []; on_scroll := []; on_probe := [];
              on_click := [(ClickFailed "Timeout 5000ms exceeded",
                            [Scenario.tweet "/u/status/1" true])];
              visited := []; clicks := 0;
              on_locate := Scenario.strict; landed := 0 |} in
  fst (likeTweetById "https://x.com/u/status/1" p) = Returns result_already
  ∧ clicks (snd (likeTweetById "https://x.com/u/status/1" p)) = 1%nat.
Proof.
  intros p.
  destruct (likeTweetById_rejected_click_took_effect "https://x.com/u/status/1" p
              (Error "Timeout 5000ms exceeded")) as [H1 H2];
    [reflexivity | reflexivity | reflexivity | reflexivity |].
  rewrite H1. split; [reflexivity | exact H2].
Defined.

(** ** Navigation controller: every way a call can go *)


Lemma robustGoto_clicks (url : string) (p : Page) :
  clicks (snd (robustGoto url p)) = clicks p.
Proof.
  unfold robustGoto. cbn [goto_attempts].
  pose proof (navigate_clicks url p) as Hc1.
  destruct (navigate url p) as [[[] | e1] p1]; cbn [fst snd] in *; [done |].
  pose proof (navigate_clicks url p1) as Hc2.
  destruct (navigate url p1) as [[[] | e2] p2]; cbn [fst snd] in *; [congruence |].
  destruct (Js.includes "x.com" url); [| simpl; congruence].
  pose proof (navigate_clicks (fallbackUrl url) p2) as Hc3.
  destruct (navigate (fallbackUrl url) p2) as [[[] | e3] p3]; cbn [fst snd] in *;
    congruence.
Qed.

Lemma robustGoto_landed (url : string) (p : Page) :
  landed (snd (robustGoto url p)) = landed p
  ∧ on_scroll (snd (robustGoto url p)) = on_scroll p.
Proof.
  assert (Hnav : ∀ u q, landed (snd (navigate u q)) = landed q
                        ∧ on_scroll (snd (navigate u q)) = on_scroll q).
  { intros u q. unfold navigate. by destruct (on_goto q) as [| [d h login | m] rest]. }
  unfold robustGoto. cbn [goto_attempts].
  destruct (Hnav url p) as [Hc1 Hs1].
  destruct (navigate url p) as [[[] | e1] p1]; cbn [fst snd] in *; [done |].
  destruct (Hnav url p1) as [Hc2 Hs2].
  destruct (navigate url p1) as [[[] | e2] p2]; cbn [fst snd] in *;
    [split; congruence |].
  destruct (Js.includes "x.com" url); [| simpl; split; congruence].
  destruct (Hnav (fallbackUrl url) p2) as [Hc3 Hs3].
  destruct (navigate (fallbackUrl url) p2) as [[[] | e3] p3]; cbn [fst snd] in *;
    split; congruence.
Qed.

(** ** Content discovery: what a scan yields *)

Lemma scan_steps_landed (k : nat) (maxScan : Z) (s : Scan) (p : Page) :
  landed (snd (scan_steps k maxScan s p)) = landed p.
Proof.
  induction k as [| k IH]; [done |]. rewrite scan_steps_S.
  destruct (scan_step_heights maxScan (fst (scan_steps k maxScan s p))
              (snd (scan_steps k maxScan s p))) as (-> & _).
  by rewrite scrollBy_landed.
Qed.

Lemma scan_steps_clicks (k : nat) (maxScan : Z) (s : Scan) (p : Page) :
  clicks (snd (scan_steps k maxScan s p)) = clicks p.
Proof.
  induction k as [| k IH]; [done |]. rewrite scan_steps_S.
  destruct (scan_step_heights maxScan (fst (scan_steps k maxScan s p))
              (snd (scan_steps k maxScan s p))) as (-> & _).
  by rewrite scrollBy_clicks.
Qed.

(** The scan returns, and what it returns is the state of the loop after
    some number of iterations. *)
Lemma collectTweetIds_scan (maxScan : Z) (p : Page) :
  ∃ k : nat,
    collectTweetIds maxScan p
    = Some (tweetUrlSet (fst (scan_at maxScan p k)), snd (scan_at maxScan p k)).
Proof.
  unfold collectTweetIds.
  destruct (collect_loop_returns (length (on_scroll p) + 4) maxScan 0 scan_start p)
    as [[[s q] n] H]; [done | apply scan_budget_start |].
  rewrite H. apply collect_loop_spec in H as (k & _ & Hk & _).
  exists k. unfold scan_at. by rewrite Hk.
Qed.

Lemma collectTweetIds_facts (maxScan : Z) (p : Page) (urls : list string) (p' : Page) :
  collectTweetIds maxScan p = Some (urls, p') →
  NoDup urls ∧ clicks p' = clicks p.
Proof.
  destruct (collectTweetIds_scan maxScan p) as [k ->]. intros [= <- <-].
  split; [| apply scan_steps_clicks].
  apply (scan_steps_within k maxScan scan_start p).
  split; [| done]. split; [constructor | simpl; lia].
Qed.

Lemma collectTweetIds_landed (maxScan : Z) (p : Page) (urls : list string) (p' : Page) :
  collectTweetIds maxScan p = Some (urls, p') → landed p' = landed p.
Proof.
  destruct (collectTweetIds_scan maxScan p) as [k ->]. intros [= _ <-].
  apply scan_steps_landed.
Qed.

Lemma set_add_extends (u : string) (urls : list string) :
  ∃ more : list string, set_add u urls = urls ++ more.
Proof.
  unfold set_add. case_bool_decide; [exists [] | exists [u]]; by rewrite ?app_nil_r.
Qed.

Lemma scan_elements_extends (maxScan : Z) (elements : list Element) (urls : list string) :
  ∃ more : list string, scan_elements maxScan elements urls = urls ++ more.
Proof.
  revert urls. induction elements as [| e es IH]; intros urls; cbn [scan_elements].
  { exists []. by rewrite app_nil_r. }
  destruct (maxScan <=? Z.of_nat (length urls)).
  { exists []. by rewrite app_nil_r. }
  destruct (extractStatusUrlFn e) as [u |]; [| apply IH].
  destruct (Js.truthy (Some u)); [| apply IH].
  destruct (set_add_extends u urls) as [m1 ->].
  destruct (IH (urls ++ m1)) as [m2 ->].
  exists (m1 ++ m2). by rewrite app_assoc.
Qed.

Lemma scan_step_extends (maxScan : Z) (s : Scan) (p : Page) :
  ∃ more : list string,
    tweetUrlSet (fst (scan_step maxScan s p)) = tweetUrlSet s ++ more.
Proof.
  destruct (scan_elements_extends maxScan (query_all true p) (tweetUrlSet s)) as [m1 H1].
  destruct (scan_elements_extends maxScan (query_all false p)
              (scan_elements maxScan (query_all true p) (tweetUrlSet s))) as [m2 H2].
  exists (m1 ++ m2). unfold scan_step.
  destruct (_ =? _); simpl; by rewrite H2, H1, app_assoc.
Qed.

(** X4. A scan never drops or moves a URL it has collected: the set after
    any later iteration is the earlier set with new URLs put behind it, so
    the array that [collectTweetIds] returns lists the URLs in the order in
    which they were first seen. *)
Theorem scan_keeps_discovery_order (maxScan : Z) (p : Page) (j d : nat) :
  ∃ more : list string,
    tweetUrlSet (fst (scan_at maxScan p (j + d)))
    = tweetUrlSet (fst (scan_at maxScan p j)) ++ more.
Proof.
  induction d as [| d [more IH]].
  - exists []. by rewrite Nat.add_0_r, app_nil_r.
  - replace (j + S d)%nat with (S (j + d)) by lia.
    unfold scan_at in *. rewrite scan_steps_S.
    destruct (scan_step_extends maxScan (fst (scan_steps (j + d) maxScan scan_start p))
                (snd (scan_steps (j + d) maxScan scan_start p))) as [m ->].
    exists (more ++ m). by rewrite IH, app_assoc.
Qed.

Lemma prefix_q (c : ascii) (s : string) :
  String.prefix "?" (String c s) = String.prefix "?" (String c "").
Proof. cbn [String.prefix]. destruct (ascii_dec "?" c); by rewrite ?prefix_empty. Qed.

Lemma includes_q_app (a b : string) :
  Js.includes "?" (a +:+ b) = Js.includes "?" a || Js.includes "?" b.
Proof.
  induction a as [| c a IH]; [done |].
  rewrite append_cons. cbn [Js.includes].
  by rewrite IH, (prefix_q c (a +:+ b)), (prefix_q c a), orb_assoc.
Qed.

(** The first piece of a split at "?" has no "?". *)
Lemma split_go_q_head (s cur : string) :
  Js.includes "?" cur = false →
  ∃ (piece : string) (rest : list string),
    Js.split_go "?" 0 cur s = piece :: rest ∧ Js.includes "?" piece = false.
Proof.
  revert cur. induction s as [| c s IH]; intros cur Hcur; cbn [Js.split_go].
  { by exists cur, []. }
  destruct (String.prefix "?" (String c s)) eqn:Hhere.
  { by eexists cur, _. }
  apply IH. rewrite includes_q_app, Hcur. cbn [Js.includes orb].
  by rewrite <- (prefix_q c s), Hhere.
Qed.

Lemma clean_href_no_query (h : string) : no_query (clean_href h) = true.
Proof.
  unfold no_query, clean_href, Js.split.
  destruct (split_go_q_head h "" eq_refl) as (piece & rest & -> & Hpiece).
  change (default "" ((piece :: rest) !! 0%nat)) with piece.
  apply negb_true_iff.
  destruct (Js.startsWith "/" h); [| done].
  by rewrite includes_q_app, Hpiece.
Qed.

Lemma extractStatusUrlFn_no_query (e : Element) (u : string) :
  extractStatusUrlFn e = Some u → no_query u = true.
Proof.
  unfold extractStatusUrlFn.
  destruct (List.filter status_anchor (anchors e)) as [| a l].
  - destruct (List.filter _ _) as [| a' l']; [done |].
    intros [= <-]. apply clean_href_no_query.
  - destruct (usable_href (href a)).
    + intros [= <-]. apply clean_href_no_query.
    + destruct (List.filter _ _) as [| a' l']; [done |].
      intros [= <-]. apply clean_href_no_query.
Qed.

Lemma scan_elements_no_query (maxScan : Z) (elements : list Element) (urls : list string) :
  Forall (λ u, no_query u = true) urls →
  Forall (λ u, no_query u = true) (scan_elements maxScan elements urls).
Proof.
  revert urls. induction elements as [| e es IH]; intros urls H; [done |].
  cbn [scan_elements].
  destruct (maxScan <=? Z.of_nat (length urls)); [done |].
  apply IH.
  destruct (extractStatusUrlFn e) as [u |] eqn:He; [| done].
  destruct (Js.truthy (Some u)); [| done].
  unfold set_add. case_bool_decide; [done |].
  apply Forall_app. split; [done |]. apply Forall_singleton.
  by apply (extractStatusUrlFn_no_query e).
Qed.

Lemma scan_steps_no_query (k : nat) (maxScan : Z) (p : Page) :
  Forall (λ u, no_query u = true) (tweetUrlSet (fst (scan_at maxScan p k))).
Proof.
  unfold scan_at. induction k as [| k IH]; [constructor |].
  rewrite scan_steps_S. unfold scan_step.
  destruct (_ =? _); simpl; by do 2 apply scan_elements_no_query.
Qed.

(** X5. [collectTweetIds] returns on every page, does not click, and no URL
    it returns has a query part: everything from the first "?" of a link
    on is cut before the URL enters the set. *)
Theorem collectTweetIds_urls_without_query (maxScan : Z) (p : Page) :
  ∃ (urls : list string) (p' : Page),
    collectTweetIds maxScan p = Some (urls, p')
    ∧ Forall (λ u, Js.includes "?" u = false) urls
    ∧ clicks p' = clicks p.
Proof.
  destruct (collectTweetIds_scan maxScan p) as [k H].
  eexists _, _. split; [exact H |]. split; [| apply scan_steps_clicks].
  eapply Forall_impl; [apply scan_steps_no_query |].
  intros u Hu. by apply negb_true_iff.
Qed.

(** ** Run orchestrator: the URLs and the page *)

Lemma elem_of_filter_bool {A} (f : A → bool) (l : list A) (x : A) :
  x ∈ List.filter f l ↔ x ∈ l ∧ f x = true.
Proof. rewrite !list_elem_of_In. apply filter_In. Qed.

Lemma NoDup_filter_bool {A} (f : A → bool) (l : list A) :
  NoDup l → NoDup (List.filter f l).
Proof.
  induction l as [| a l IH]; [done |].
  intros [Hnotin Hnd]%NoDup_cons. cbn [List.filter].
  destruct (f a); [| by apply IH].
  apply NoDup_cons. split; [| by apply IH].
  intros Hin%elem_of_filter_bool. tauto.
Qed.

(** A filter that lets less through keeps what the wider one had: no
    duplicates, and nothing at all. *)
Lemma NoDup_filter_weaken {A} (f g : A → bool) (l : list A) :
  (∀ x, g x = true → f x = true) →
  NoDup (List.filter f l) → NoDup (List.filter g l).
Proof.
  intros Hgf. induction l as [| a l IH]; [done |]. cbn [List.filter].
  destruct (g a) eqn:Hg.
  - rewrite (Hgf a Hg). intros [Hnotin Hnd]%NoDup_cons.
    apply NoDup_cons. split; [| by apply IH].
    intros Hin. apply Hnotin.
    apply elem_of_filter_bool in Hin as [Hl Hx]. apply elem_of_filter_bool. auto.
  - destruct (f a); [intros [_ Hnd]%NoDup_cons | intros Hnd]; by apply IH.
Qed.

Lemma filter_nil_weaken {A} (f g : A → bool) (l : list A) :
  (∀ x, g x = true → f x = true) →
  List.filter f l = [] → List.filter g l = [].
Proof.
  intros Hgf. induction l as [| a l IH]; [done |]. cbn [List.filter].
  destruct (f a) eqn:Hf; [done |].
  destruct (g a) eqn:Hg; [by rewrite (Hgf a Hg) in Hf | done].
Qed.

Lemma invoked_of_app (evs evs' : list Event) :
  invoked_of (evs ++ evs') = invoked_of evs ++ invoked_of evs'.
Proof. apply omap_app. Qed.

Lemma invoked_of_on_ok statusUrl statusId result l n :
  invoked_of (events_on_ok statusUrl statusId result l n) = [].
Proof. unfold events_on_ok. by destruct (is_already result), (Js.truthy statusId). Qed.

Lemma probe_rate_limit_clicks (r : Run) :
  clicks (page (probe_rate_limit r)) = clicks (page r).
Proof.
  unfold probe_rate_limit. pose proof (isRateLimited_clicks (page r)) as H.
  by destruct (isRateLimited (page r)).
Qed.

Lemma on_result_urls statusUrl statusId result r :
  processedUrls (on_result statusUrl statusId result r) = {[statusUrl]} ∪ processedUrls r
  ∧ tweetUrls (on_result statusUrl statusId result r) = tweetUrls r
  ∧ clicks (page (on_result statusUrl statusId result r)) = clicks (page r).
Proof.
  unfold on_result. destruct (ok result); [| done].
  match goal with |- context [probe_rate_limit ?x] =>
    rewrite (probe_rate_limit_clicks x);
    destruct (probe_rate_limit_fields x) as (_ & _ & _ & -> & ->) end.
  by destruct (Js.truthy statusId), (is_already result).
Qed.

(** What one item does to the URL bookkeeping: [tweetUrls] stays, the item
    may enter [processedUrls], and it does whenever it is dispatched. *)
Lemma process_item_urls (cfg : Config) (u : string) (r : Run) :
  let r' := snd (process_item cfg u r) in
  tweetUrls r' = tweetUrls r
  ∧ (processedUrls r' = processedUrls r ∨ processedUrls r' = {[u]} ∪ processedUrls r)
  ∧ (invoked_of (events r') = invoked_of (events r)
     ∨ (invoked_of (events r') = invoked_of (events r) ++ [u]
        ∧ processedUrls r' = {[u]} ∪ processedUrls r)).
Proof.
  cbv zeta. unfold process_item.
  destruct (dayCount (processed r) >=? DAILY_CAP cfg).
  { cbn [snd emit tweetUrls processedUrls events].
    rewrite invoked_of_app. cbn. rewrite app_nil_r. auto. }
  destruct (likedCount r >=? TWEETS_TO_LIKE cfg).
  { cbn [snd emit tweetUrls processedUrls events].
    rewrite invoked_of_app. cbn. rewrite app_nil_r. auto. }
  destruct (Js.truthy (statusIdOf u) && is_liked (processed r) (statusIdOf u)).
  { cbn [snd emit add_processed tweetUrls processedUrls events].
    rewrite invoked_of_app. cbn. rewrite app_nil_r. auto. }
  change (page (emit (Invoked u) r)) with (page r).
  destruct (likeTweetById u (page r)) as [[result | error] p']; cbn [snd].
  - destruct (on_result_urls u (statusIdOf u) result (set_page p' (emit (Invoked u) r)))
      as (Hpu & Htw & _).
    rewrite Hpu, Htw, on_result_events. split; [done |]. split; [by right |].
    right. split; [| done].
    cbn [set_page emit events]. rewrite !invoked_of_app.
    destruct (ok result); rewrite ?invoked_of_on_ok; cbn; by rewrite app_nil_r.
  - cbn [on_error set_page emit add_processed tweetUrls processedUrls events].
    split; [done |]. split; [by right |]. right. split; [| done].
    rewrite !invoked_of_app. cbn. by rewrite app_nil_r.
Qed.

Lemma ledger_after_lookup statusId result l (id : string) :
  liked (ledger_after statusId result l) !! id = liked l !! id
  ∨ (liked (ledger_after statusId result l) !! id = Some true
     ∧ statusId = Some id ∧ id ≠ "").
Proof.
  unfold ledger_after. destruct (ok result); [| by left].
  destruct statusId as [[| c s] |];
    try (destruct (is_already result); by left).
  cbn [Js.truthy]. change (default "" (Some (String c s))) with (String c s).
  assert (Hset : ∀ l', liked (set_liked (String c s) l') !! id = liked l' !! id
                       ∨ liked (set_liked (String c s) l') !! id = Some true
                         ∧ String c s = id).
  { intros l'.
    destruct (set_liked_spec (String c s) l') as (_ & _ & [-> | (-> & _)]);
      [| by left].
    destruct (decide (String c s = id)) as [<- | Hne];
      [right; by rewrite lookup_insert_eq | left; by rewrite lookup_insert_ne]. }
  destruct (is_already result).
  - destruct (Hset l) as [H | [H <-]]; [by left | by right].
  - destruct (Hset (incr_dayCount l)) as [H | [H <-]]; [by left | by right].
Qed.

(** The ledger answers "liked" for every key it answered so before. *)
Lemma process_item_keeps (cfg : Config) (u : string) (r : Run)
    (statusId : option string) :
  is_liked (processed r) statusId = true →
  is_liked (processed (snd (process_item cfg u r))) statusId = true.
Proof.
  intros H.
  destruct (process_item_step cfg u r)
    as [ev Hev Hp Hc He | Hknown Hp Hc He | Hd Hl Hnew Hh]; [by rewrite Hp .. |].
  destruct Hh as [result Hok Hp Hc He | result Hok Hp Hc He | error Hp Hc He];
    rewrite Hp; [| done | done].
  unfold is_liked in *.
  by destruct (ledger_after_lookup (statusIdOf u) result (processed r)
                 (Js.prop_key statusId)) as [-> | [-> _]].
Qed.

Lemma remaining_weaken (r r' : Run) :
  tweetUrls r' = tweetUrls r →
  (∀ statusId : option string, is_liked (processed r) statusId = true →
                               is_liked (processed r') statusId = true) →
  (∀ x : string, x ∈ processedUrls r → x ∈ processedUrls r') →
  NoDup (remaining r) → NoDup (remaining r').
Proof.
  intros Htw Hkeep Hsub. unfold remaining. rewrite Htw.
  apply NoDup_filter_weaken. intros x [Hl Hp]%andb_true_iff.
  apply negb_true_iff in Hl, Hp. apply andb_true_iff. split; apply negb_true_iff.
  - destruct (is_liked (processed r) (statusIdOf x)) eqn:E; [| done].
    apply Hkeep in E. congruence.
  - apply bool_decide_eq_false in Hp. apply bool_decide_eq_false. auto.
Qed.

Lemma process_item_once (cfg : Config) (u : string) (r : Run) :
  once_inv r → u ∉ processedUrls r → u ∈ tweetUrls r →
  once_inv (snd (process_item cfg u r)).
Proof.
  intros (Hnd & Hin & Hrem) Hu Htw.
  destruct (process_item_urls cfg u r) as (Htw' & Hpu & Hinv). cbv zeta in *.
  pose proof (process_item_keeps cfg u r) as Hkeep.
  set (r' := snd (process_item cfg u r)) in *.
  assert (Hsub : ∀ x : string, x ∈ processedUrls r → x ∈ processedUrls r').
  { intros x Hx. destruct Hpu as [-> | ->]; [done | by apply elem_of_union_r]. }
  split; [| split].
  - destruct Hinv as [-> | [-> _]]; [done |].
    apply NoDup_app. split; [done |]. split; [| apply NoDup_singleton].
    intros x Hx ->%list_elem_of_singleton. by apply Hin in Hx as [? _].
  - intros x Hx. rewrite Htw'. destruct Hinv as [Hi | [Hi Hp]]; rewrite Hi in Hx.
    + destruct (Hin x Hx). split; [by apply Hsub | done].
    + apply elem_of_app in Hx as [Hx | ->%list_elem_of_singleton].
      * destruct (Hin x Hx). split; [by apply Hsub | done].
      * split; [| done]. rewrite Hp. by apply elem_of_union_l, elem_of_singleton.
  - by apply (remaining_weaken r r').
Qed.

Lemma process_batch_once (cfg : Config) (us : list string) (r : Run) :
  once_inv r → NoDup us →
  (∀ u : string, u ∈ us → (u ∉ processedUrls r) ∧ u ∈ tweetUrls r) →
  once_inv (process_batch cfg us r).
Proof.
  revert r. induction us as [| u us IH]; intros r Hr Hnd Hus; [done |].
  apply NoDup_cons in Hnd as [Hu Hnd]. cbn [process_batch].
  destruct (Hus u) as [Hfresh Hcol]; [apply list_elem_of_here |].
  pose proof (process_item_once cfg u r Hr Hfresh Hcol) as Hr'.
  destruct (process_item_urls cfg u r) as (Htw' & Hpu & _). cbv zeta in *.
  destruct (process_item cfg u r) as [[|] r']; cbn [snd] in *; [| done].
  apply IH; [done | done |]. intros x Hx.
  destruct (Hus x) as [Hxf Hxc]; [by apply list_elem_of_further |].
  rewrite Htw'. split; [| done].
  destruct Hpu as [-> | ->]; [done |].
  intros [->%elem_of_singleton | Hold]%elem_of_union; done.
Qed.

Lemma recollect_once (cfg : Config) (r r' : Run) :
  once_inv r → remaining r = [] → recollect cfg r = Some r' → once_inv r'.
Proof.
  unfold recollect. intros (Hnd & Hin & _) Hempty H.
  destruct (collectTweetIds _ _) as [[newUrls p'] |] eqn:Hc; [| done].
  apply collectTweetIds_facts in Hc as [Hnew _]. injection H as <-.
  split; [done |]. split.
  - intros u Hu. destruct (Hin u Hu).
    cbn [processedUrls tweetUrls]. split; [done |]. apply elem_of_app. auto.
  - unfold remaining in *. cbn [processedUrls tweetUrls processed] in *.
    rewrite List.filter_app, Hempty. cbn [app].
    by do 2 apply NoDup_filter_bool.
Qed.

(** A property of the whole run that a batch and a new collection preserve
    holds after any number of iterations of the act loop.  A new collection
    is only made when the filter at the head of the loop lets nothing
    through. *)
Section ActLoopRun.

Variable cfg : Config.
Variable J : Run → Prop.

Hypothesis J_batch : ∀ r : Run, J r → J (process_batch cfg (remaining r) r).
Hypothesis J_recollect :
  ∀ r r' : Run, J r → remaining r = [] → recollect cfg r = Some r' → J r'.

Lemma act_loop_keeps (fuel : nat) (r : Run) :
  J r → J (snd (act_loop fuel cfg r)).
Proof.
  revert r. induction fuel as [| fuel IH]; intros r Hr; cbn [act_loop].
  - by destruct (_ && _).
  - destruct (_ && _); [| done].
    destruct (length (remaining r) =? 0)%nat eqn:Hlen.
    + apply Nat.eqb_eq, nil_length_inv in Hlen.
      destruct (recollect cfg r) as [r' |] eqn:Hre; [| done]. eauto.
    + clear Hlen. pose proof (J_batch r Hr) as H1.
      set (r1 := process_batch cfg (remaining r) r) in *.
      destruct (quota_left cfg r1); [| by apply IH].
      destruct (length _ =? 0)%nat eqn:Hun; [| by apply IH].
      destruct (recollect cfg r1) as [r2 |] eqn:Hre; [| done].
      apply IH, (J_recollect r1 r2 H1); [| done].
      apply Nat.eqb_eq, nil_length_inv in Hun. unfold remaining.
      apply (filter_nil_weaken _ _ (tweetUrls r1)
               (λ x H, proj2 (andb_prop _ _ H)) Hun).
Qed.

End ActLoopRun.

(** [processUrl] either gives up before the act loop, reporting no success,
    or runs the act loop on the URLs of a scan, which are distinct.  Up to
    there the page has not been clicked. *)
Lemma processUrl_cases (fuel : nat) (cfg : Config) (url : string)
    (l0 : Ledger) (p : Page) :
  (∃ p' : Page,
     processUrl fuel cfg url l0 p
     = (Some {| success := false; liked_here := 0 |}, start_run l0 [] p')
     ∧ clicks p' = clicks p ∧ landed p' = landed p)
  ∨ (∃ (urls : list string) (p' : Page),
       NoDup urls ∧ (clicks p' = clicks p ∧ landed p' = landed p)
       ∧ processUrl fuel cfg url l0 p
         = let r := snd (act_loop fuel cfg (start_run l0 urls p')) in
           (match fst (act_loop fuel cfg (start_run l0 urls p')) with
            | Completed => Some {| success := true; liked_here := likedCount r |}
            | OutOfFuel => None
            end, r)).
Proof.
  unfold processUrl.
  pose proof (robustGoto_clicks url p) as Hg.
  destruct (robustGoto_landed url p) as [Hg' _].
  destruct (robustGoto url p) as [[b | e] p1]; cbn [snd] in Hg, Hg'; [| left; eauto].
  destruct (isLoginPage p1); [left; eauto |].
  pose proof (isRateLimited_clicks p1) as H1.
  pose proof (isRateLimited_landed p1) as H1'.
  destruct (isRateLimited p1) as [limited p2]; cbn [snd] in H1, H1'.
  assert (H3 : clicks (snd (if limited then isRateLimited (reload p2) else (false, p2)))
               = clicks p
               ∧ landed (snd (if limited then isRateLimited (reload p2) else (false, p2)))
                 = landed p).
  { destruct limited; cbn [snd];
      [rewrite isRateLimited_clicks, reload_clicks, isRateLimited_landed, reload_landed |];
      split; congruence. }
  destruct (if limited then isRateLimited (reload p2) else (false, p2)) as [still p3];
    cbn [snd] in H3. destruct H3 as [H3 H3'].
  destruct still; [left; eauto |].
  destruct (collectTweetIds_scan (MAX_SCAN cfg) p3) as [k Hk].
  pose proof (collectTweetIds_facts _ _ _ _ Hk) as [Hnd Hc].
  pose proof (collectTweetIds_landed _ _ _ _ Hk) as Hc'. rewrite Hk.
  right.
  exists (tweetUrlSet (fst (scan_at (MAX_SCAN cfg) p3 k))),
         (snd (scan_at (MAX_SCAN cfg) p3 k)).
  split; [exact Hnd |]. split; [split; congruence |].
  by destruct (act_loop fuel cfg _) as [[|] r].
Qed.

(** X6. Within one target no URL is handed to the action executor twice,
    whatever its outcome was the first time, however often the page is
    scanned again and for as long as the loop runs.  Every URL that was
    handed over came from a scan and is in [processedUrls]. *)
Theorem no_url_dispatched_twice (fuel : nat) (cfg : Config) (url : string)
    (l0 : Ledger) (p : Page) :
  let r := snd (processUrl fuel cfg url l0 p) in
  NoDup (invoked_of (events r))
  ∧ ∀ u : string, u ∈ invoked_of (events r) → u ∈ processedUrls r ∧ u ∈ tweetUrls r.
Proof.
  assert (Hstart : ∀ urls p', NoDup urls → once_inv (start_run l0 urls p')).
  { intros urls p' Hnd. split; [constructor |]. split.
    - intros u Hu. by apply elem_of_nil in Hu.
    - by apply NoDup_filter_bool. }
  assert (Hinv : once_inv (snd (processUrl fuel cfg url l0 p))).
  { destruct (processUrl_cases fuel cfg url l0 p)
      as [(p' & -> & _) | (urls & p' & Hnd & _ & ->)]; cbn [snd].
    - apply Hstart. constructor.
    - apply act_loop_keeps; [| apply recollect_once | by apply Hstart].
      intros r Hr. apply process_batch_once; [done | by destruct Hr as (_ & _ & ?) |].
      intros u [Hu Hf]%elem_of_filter_bool.
      apply andb_true_iff in Hf as [_ Hf%negb_true_iff%bool_decide_eq_false].
      done. }
  destruct Hinv as (Hnd & Hin & _). by split.
Qed.

Lemma process_item_clicks (cfg : Config) (u : string) (c0 : nat) (r : Run) :
  clicks_inv c0 r → clicks_inv c0 (snd (process_item cfg u r)).
Proof.
  unfold clicks_inv. intros (H0 & Hl & Hc). unfold process_item.
  destruct (dayCount (processed r) >=? DAILY_CAP cfg).
  { cbn [snd emit page likedCount events].
    rewrite invoked_of_app, length_app. cbn. lia. }
  destruct (likedCount r >=? TWEETS_TO_LIKE cfg).
  { cbn [snd emit page likedCount events].
    rewrite invoked_of_app, length_app. cbn. lia. }
  destruct (Js.truthy (statusIdOf u) && is_liked (processed r) (statusIdOf u)).
  { cbn [snd emit add_processed page likedCount events].
    rewrite invoked_of_app, length_app. cbn. lia. }
  change (page (emit (Invoked u) r)) with (page r).
  destruct (likeTweetById_clicks u (page r)) as [Hb Hcounted]. cbv zeta in *.
  destruct (likeTweetById u (page r)) as [[result | error] p']; cbn [fst snd] in *.
  - destruct (on_result_urls u (statusIdOf u) result (set_page p' (emit (Invoked u) r)))
      as (_ & _ & ->).
    rewrite on_result_likedCount, on_result_events.
    cbn [page set_page likedCount processed emit events].
    rewrite !invoked_of_app, !length_app.
    assert (Hquiet : length (invoked_of
                       (if ok result
                        then events_on_ok u (statusIdOf u) result (processed r) (likedCount r)
                        else [LogFailed u (reason result)])) = 0%nat)
      by (destruct (ok result); by rewrite ?invoked_of_on_ok).
    rewrite Hquiet. change (length (invoked_of [Invoked u])) with 1%nat.
    destruct (ok result && negb (is_already result)) eqn:E.
    + specialize (Hcounted result eq_refl E). lia.
    + lia.
  - cbn [on_error set_page emit add_processed page likedCount events].
    rewrite !invoked_of_app, !length_app. cbn. lia.
Qed.

Lemma process_batch_clicks (cfg : Config) (us : list string) (c0 : nat) (r : Run) :
  clicks_inv c0 r → clicks_inv c0 (process_batch cfg us r).
Proof.
  revert r. induction us as [| u us IH]; intros r Hr; [done |]. cbn [process_batch].
  pose proof (process_item_clicks cfg u c0 r Hr) as Hr'.
  destruct (process_item cfg u r) as [[|] r']; cbn [snd] in Hr'; auto.
Qed.

Lemma recollect_clicks (cfg : Config) (c0 : nat) (r r' : Run) :
  clicks_inv c0 r → recollect cfg r = Some r' → clicks_inv c0 r'.
Proof.
  unfold recollect, clicks_inv. intros Hr H.
  destruct (collectTweetIds _ _) as [[newUrls p'] |] eqn:Hc; [| done].
  apply collectTweetIds_facts in Hc as [_ Hc]. rewrite scrollBy_clicks in Hc.
  injection H as <-. cbn [page likedCount events]. by rewrite Hc.
Qed.

(** X7. Every like that a target counts is backed by a click of its own,
    and every click by a dispatched item: the per-target count never
    exceeds the number of real clicks made on the page since [processUrl]
    was called, and that number never exceeds three times the number of
    calls of the action executor.  Nothing but the action executor clicks. *)
Theorem likes_backed_by_clicks (fuel : nat) (cfg : Config) (url : string)
    (l0 : Ledger) (p : Page) :
  let r := snd (processUrl fuel cfg url l0 p) in
  (clicks p ≤ clicks (page r))%nat
  ∧ 0 <= likedCount r <= Z.of_nat (clicks (page r) - clicks p)
  ∧ (clicks (page r) - clicks p ≤ 3 * length (invoked_of (events r)))%nat.
Proof.
  assert (Hstart : ∀ urls p', clicks p' = clicks p →
                              clicks_inv (clicks p) (start_run l0 urls p')).
  { intros urls p' Hc. unfold clicks_inv. cbn. lia. }
  change (clicks_inv (clicks p) (snd (processUrl fuel cfg url l0 p))).
  destruct (processUrl_cases fuel cfg url l0 p)
    as [(p' & -> & Hc & _) | (urls & p' & _ & [Hc _] & ->)]; cbn [snd].
  - by apply Hstart.
  - apply act_loop_keeps; [| | by apply Hstart].
    + intros r. apply process_batch_clicks.
    + intros r r' Hr _. by apply recollect_clicks.
Qed.

Lemma probe_rate_limit_landed (r : Run) :
  landed (page (probe_rate_limit r)) = landed (page r).
Proof.
  unfold probe_rate_limit. pose proof (isRateLimited_landed (page r)) as H.
  by destruct (isRateLimited (page r)).
Qed.

Lemma on_result_landed statusUrl statusId result r :
  landed (page (on_result statusUrl statusId result r)) = landed (page r).
Proof.
  unfold on_result. destruct (ok result); [| done].
  rewrite probe_rate_limit_landed.
  by destruct (Js.truthy statusId), (is_already result).
Qed.

(** One item counts a like exactly when its call of the action executor
    landed a click. *)
Lemma process_item_landed (cfg : Config) (u : string) (p0 : Page) (r : Run) :
  landed_inv p0 r → landed_inv p0 (snd (process_item cfg u r)).
Proof.
  unfold landed_inv, likes_performed. intros Hr. unfold process_item.
  destruct (dayCount (processed r) >=? DAILY_CAP cfg); [done |].
  destruct (likedCount r >=? TWEETS_TO_LIKE cfg); [done |].
  destruct (Js.truthy (statusIdOf u) && is_liked (processed r) (statusIdOf u));
    [done |].
  change (page (emit (Invoked u) r)) with (page r).
  pose proof (likeTweetById_landed u (page r)) as Hcall.
  destruct (likeTweetById u (page r)) as [[result | error] p']; cbn [fst snd] in *.
  - rewrite on_result_landed, on_result_likedCount.
    cbn [page set_page likedCount emit counted] in *.
    destruct (ok result && negb (is_already result)); lia.
  - cbn [on_error set_page emit add_processed page likedCount counted] in *. lia.
Qed.

Lemma process_batch_landed (cfg : Config) (us : list string) (p0 : Page) (r : Run) :
  landed_inv p0 r → landed_inv p0 (process_batch cfg us r).
Proof.
  revert r. induction us as [| u us IH]; intros r Hr; [done |]. cbn [process_batch].
  pose proof (process_item_landed cfg u p0 r Hr) as Hr'.
  destruct (process_item cfg u r) as [[|] r']; cbn [snd] in Hr'; auto.
Qed.

Lemma recollect_landed (cfg : Config) (p0 : Page) (r r' : Run) :
  landed_inv p0 r → recollect cfg r = Some r' → landed_inv p0 r'.
Proof.
  unfold recollect, landed_inv, likes_performed. intros Hr H.
  destruct (collectTweetIds _ _) as [[newUrls p'] |] eqn:Hc; [| done].
  apply collectTweetIds_landed in Hc. rewrite scrollBy_landed in Hc.
  injection H as <-. cbn [page likedCount]. by rewrite Hc.
Qed.

Lemma processUrl_landed (fuel : nat) (cfg : Config) (url : string)
    (l0 : Ledger) (p : Page) :
  landed_inv p (snd (processUrl fuel cfg url l0 p)).
Proof.
  assert (Hstart : ∀ urls p', landed p' = landed p →
                              landed_inv p (start_run l0 urls p')).
  { intros urls p' Hc. unfold landed_inv, likes_performed. cbn. lia. }
  destruct (processUrl_cases fuel cfg url l0 p)
    as [(p' & -> & _ & Hc) | (urls & p' & _ & [_ Hc] & ->)]; cbn [snd].
  - by apply Hstart.
  - apply act_loop_keeps; [| | by apply Hstart].
    + intros r. apply process_batch_landed.
    + intros r r' Hr _. by apply recollect_landed.
Qed.

(** C1. Take a ledger whose [dayCount] is within the daily cap and run
    [processUrl] on it, for any page and for as long as one likes.  Every
    value the ledger takes (each assignment, each save, the final one) has
    [dayCount] within the daily cap.  Each like is counted from a
    [dayCount] below the daily cap and a per-target count below
    [TWEETS_TO_LIKE], and adds exactly one to both: the k-th like of the
    target logs the counts k and start + k.  What is counted is what was
    done: a call of the action executor lands exactly one real click when
    it returns [ok] without [already] and none otherwise, and the number of
    clicks landed on the page since [processUrl] was called, the likes
    performed against the target, is [likedCount].  That number never
    exceeds [TWEETS_TO_LIKE] (it is 0 when that cap is not positive), and
    [dayCount] has grown by exactly that number. *)
Theorem quota_invariant (fuel : nat) (cfg : Config) (url : string)
    (l0 : Ledger) (p : Page) :
  dayCount l0 <= DAILY_CAP cfg →
  let r := snd (processUrl fuel cfg url l0 p) in
  (∀ l : Ledger, Assigned l ∈ events r ∨ Saved l ∈ events r →
     dayCount l <= DAILY_CAP cfg)
  ∧ dayCount (processed r) <= DAILY_CAP cfg
  ∧ (∀ (n d : Z) (u : string), LogLiked n d u ∈ events r →
       n - 1 < TWEETS_TO_LIKE cfg ∧ d - 1 < DAILY_CAP cfg)
  ∧ likes_of (events r) = (λ k, (k, dayCount l0 + k)) <$> seqZ 1 (likedCount r)
  ∧ Z.of_nat (length (likes_of (events r))) = likedCount r
  ∧ dayCount (processed r) = dayCount l0 + likedCount r
  ∧ likedCount r <= Z.max 0 (TWEETS_TO_LIKE cfg)
  ∧ (∀ (statusUrl : string) (q : Page),
       landed (snd (likeTweetById statusUrl q))
       = (landed q + if counted (fst (likeTweetById statusUrl q)) then 1 else 0)%nat)
  ∧ likes_performed p (page r) = likedCount r
  ∧ likes_performed p (page r) <= Z.max 0 (TWEETS_TO_LIKE cfg)
  ∧ dayCount (processed r) = dayCount l0 + likes_performed p (page r).
Proof.
  intros H0 r.
  destruct (processUrl_quota fuel cfg url l0 p H0) as (Hday & Hn & Hsum & Hlikes & Hall).
  pose proof (processUrl_landed fuel cfg url l0 p) as Hlanded.
  unfold landed_inv in Hlanded.
  fold r in Hday, Hn, Hsum, Hlikes, Hall, Hlanded.
  rewrite Forall_forall in Hall. rewrite Hlanded.
  repeat split; try done; try lia.
  - intros l [Hl | Hl]; apply (Hall _ Hl).
  - by apply (Hall _ H).
  - by apply (Hall _ H).
  - rewrite Hlikes, length_fmap, length_seqZ. lia.
  - apply likeTweetById_landed.
Qed.

Lemma quota_invariant_witness :
  dayCount (processed (snd (processUrl 10 Scenario.config "https://x.com/u"
                              zero_ledger Scenario.site))) <= 10
  ∧ likes_performed Scenario.site
      (page (snd (processUrl 10 Scenario.config "https://x.com/u"
                    zero_ledger Scenario.site))) <= 2.
Proof.
  destruct (quota_invariant 10 Scenario.config "https://x.com/u" zero_ledger
              Scenario.site) as (_ & H1 & _ & _ & _ & _ & _ & _ & _ & H2 & _).
  - simpl. lia.
  - split; [exact H1 | exact H2].
Defined.

(** On the small site both likes are clicks that resolved. *)
Example likes_performed_small_site :
  likes_performed Scenario.site
    (page (snd (processUrl 10 Scenario.config "https://x.com/u"
                  zero_ledger Scenario.site))) = 2.
Proof. by vm_compute. Qed.

(** ** Run orchestrator: the ledger and its file *)

(** An invariant of the act loop that holds of the ledger [processUrl] is
    given holds of the run it leaves. *)
Section ProcessUrlHolds.

Variable cfg : Config.
Variable I : Ledger → Z → list Event → Prop.

Hypothesis I_item :
  ∀ (statusUrl : string) (r r' : Run),
    holds I r → True → ItemStep cfg statusUrl r r' → holds I r'.

Lemma processUrl_holds (fuel : nat) (url : string) (l0 : Ledger) (p : Page) :
  I l0 0 [] → holds I (snd (processUrl fuel cfg url l0 p)).
Proof.
  intros H0.
  destruct (processUrl_run fuel cfg url l0 p) as [[p' Hr] | (urls & p' & Hr)];
    cbv zeta in Hr; rewrite Hr; [done |].
  by apply (act_loop_holds cfg I (λ _, True)).
Qed.

End ProcessUrlHolds.

Lemma last_saved_app (l0 : Ledger) (evs evs' : list Event) :
  last_saved l0 (evs ++ evs') = last_saved (last_saved l0 evs) evs'.
Proof. apply foldl_app. Qed.

Lemma saved_current_item (cfg : Config) (l0 : Ledger) (statusUrl : string) (r r' : Run) :
  holds (saved_current l0) r → True → ItemStep cfg statusUrl r r' →
  holds (saved_current l0) r'.
Proof.
  unfold holds, saved_current. intros Hr _ Hstep.
  destruct Hstep as [ev Hev Hp Hc He | Hknown Hp Hc He | Hd Hl Hnew Hh].
  - rewrite Hp, He, last_saved_app, <- Hr. by destruct Hev as [-> | ->].
  - by rewrite Hp, He, last_saved_app, <- Hr.
  - destruct Hh as [result Hok Hp Hc He | result Hok Hp Hc He | error Hp Hc He];
      rewrite Hp, He, last_saved_app, <- Hr; [| done | done].
    unfold events_on_ok.
    by destruct (is_already result), (Js.truthy (statusIdOf statusUrl)).
Qed.

(** X8. No change to the ledger is left unsaved: at the end of
    [processUrl], and whenever its loop is cut between two iterations, the
    ledger in memory is the one the last [saveProcessed] was called with, or
    the ledger the target started with if there was no such call. *)
Theorem saved_ledger_is_current (fuel : nat) (cfg : Config) (url : string)
    (l0 : Ledger) (p : Page) :
  let r := snd (processUrl fuel cfg url l0 p) in
  processed r = last_saved l0 (events r).
Proof.
  apply (processUrl_holds cfg (saved_current l0)); [apply saved_current_item | done].
Qed.

Lemma ledger_after_dayStart statusId result l :
  dayStart (ledger_after statusId result l) = dayStart l.
Proof.
  unfold ledger_after.
  by destruct (ok result), (is_already result), (Js.truthy statusId);
    rewrite ?(proj1 (proj2 (set_liked_spec _ _))).
Qed.

Lemma same_day_item (cfg : Config) (day : string) (statusUrl : string) (r r' : Run) :
  holds (same_day day) r → True → ItemStep cfg statusUrl r r' →
  holds (same_day day) r'.
Proof.
  unfold holds, same_day. intros [Hday Hall] _ Hstep.
  destruct Hstep as [ev Hev Hp Hc He | Hknown Hp Hc He | Hd Hl Hnew Hh].
  - rewrite Hp, He. split; [done |].
    apply Forall_app. split; [done |]. apply Forall_singleton.
    by destruct Hev as [-> | ->].
  - rewrite Hp, He. split; [done |].
    apply Forall_app. split; [done |]. by apply Forall_singleton.
  - destruct Hh as [result Hok Hp Hc He | result Hok Hp Hc He | error Hp Hc He];
      rewrite Hp, He.
    + rewrite ledger_after_dayStart. split; [done |].
      apply Forall_app. split; [done |]. apply Forall_cons. split; [done |].
      unfold events_on_ok.
      destruct (is_already result), (Js.truthy (statusIdOf statusUrl));
        repeat (apply Forall_cons; split); try apply Forall_nil; try done;
        by rewrite ledger_after_dayStart.
    + split; [done |]. apply Forall_app. split; [done |].
      by repeat (apply Forall_cons; split).
    + split; [done |]. apply Forall_app. split; [done |].
      by repeat (apply Forall_cons; split).
Qed.

Lemma loadProcessed_dayStart (f : LedgerFile) (iso_now : string) :
  dayStart (loadProcessed f iso_now) = today_of iso_now.
Proof.
  unfold loadProcessed. case_bool_decide as Hd; [done |].
  destruct (decide (dayStart (read_ledger f) = today_of iso_now)); [done |].
  by destruct Hd.
Qed.

Lemma loadProcessed_today (l : Ledger) (iso_now : string) :
  dayStart l = today_of iso_now → loadProcessed (FileJson l) iso_now = l.
Proof.
  intros H. unfold loadProcessed. cbn [read_ledger].
  by rewrite bool_decide_eq_false_2 by (intros Hne; by apply Hne).
Qed.

(** X9. Stopping and starting again on the same day loses nothing: a
    target that starts from what [loadProcessed] returned never touches
    [dayStart], so every ledger it saves, and the one it ends with, is
    returned unchanged when [loadProcessed] reads it back at any time of
    that day, with its [dayCount] and every entry of [liked]. *)
Theorem saved_ledger_reloads_unchanged (fuel : nat) (cfg : Config) (url : string)
    (f : LedgerFile) (iso_now : string) (p : Page) :
  let r := snd (processUrl fuel cfg url (loadProcessed f iso_now) p) in
  dayStart (processed r) = today_of iso_now
  ∧ ∀ later : string,
      today_of later = today_of iso_now →
      loadProcessed (FileJson (processed r)) later = processed r
      ∧ ∀ l : Ledger, Saved l ∈ events r → loadProcessed (FileJson l) later = l.
Proof.
  intros r.
  assert (Hinv : holds (same_day (today_of iso_now)) r).
  { apply (processUrl_holds cfg (same_day (today_of iso_now))).
    - apply same_day_item.
    - split; [apply loadProcessed_dayStart | constructor]. }
  destruct Hinv as [Hday Hall]. split; [done |].
  intros later Hlater. split; [apply loadProcessed_today; congruence |].
  intros l Hl. apply loadProcessed_today.
  rewrite Forall_forall in Hall. rewrite Hlater. apply (Hall _ Hl).
Qed.

Lemma gains_inv_more (l0 l : Ledger) (n n' : Z) (evs more : list Event) :
  gains_inv l0 l n evs → gains_inv l0 l n' (evs ++ more).
Proof.
  intros H id. destruct (H id) as [Hsame | (Htrue & Hne & u & Hu & Hid)]; [by left |].
  right. split; [done |]. split; [done |]. exists u. split; [| done].
  rewrite invoked_of_app. apply elem_of_app. by left.
Qed.

Lemma gains_inv_item (cfg : Config) (l0 : Ledger) (statusUrl : string) (r r' : Run) :
  holds (gains_inv l0) r → True → ItemStep cfg statusUrl r r' →
  holds (gains_inv l0) r'.
Proof.
  unfold holds. intros Hr _ Hstep.
  destruct Hstep as [ev Hev Hp Hc He | Hknown Hp Hc He | Hd Hl Hnew Hh];
    [rewrite Hp, He; by eapply gains_inv_more .. |].
  destruct Hh as [result Hok Hp Hc He | result Hok Hp Hc He | error Hp Hc He];
    rewrite Hp, He; [| by eapply gains_inv_more ..].
  intros id.
  destruct (ledger_after_lookup (statusIdOf statusUrl) result (processed r) id)
    as [-> | (Htrue & Hid & Hne)].
  - exact (gains_inv_more l0 (processed r) (likedCount r) 0 (events r) _ Hr id).
  - right. split; [done |]. split; [done |]. exists statusUrl. split; [| done].
    rewrite invoked_of_app. apply elem_of_app. right. apply list_elem_of_here.
Qed.

(** X10. The only change a target makes to [liked] is to set entries to
    [true], each under the non-empty identifier of a URL that was handed to
    the action executor: every other key has the value, or the absence, it
    had when [processUrl] was called.  Nothing is removed and nothing is
    recorded for a URL that was not dispatched. *)
Theorem liked_changes_only_for_dispatched (fuel : nat) (cfg : Config) (url : string)
    (l0 : Ledger) (p : Page) (id : string) :
  let r := snd (processUrl fuel cfg url l0 p) in
  liked (processed r) !! id = liked l0 !! id
  ∨ (liked (processed r) !! id = Some true ∧ id ≠ ""
     ∧ ∃ u : string, u ∈ invoked_of (events r) ∧ statusIdOf u = Some id).
Proof.
  revert id.
  apply (processUrl_holds cfg (gains_inv l0)); [apply gains_inv_item |].
  intros id. by left.
Qed.

Lemma act_loop_no_quota (fuel : nat) (cfg : Config) (r : Run) :
  quota_left cfg r = false → act_loop fuel cfg r = (Completed, r).
Proof. intros H. destruct fuel; cbn [act_loop]; by rewrite H. Qed.

(** X11. For a target that is started with the quota used up (the ledger
    at or over the daily cap, or a per-target cap that is not positive)
    nothing is dispatched: the action executor is not called, nothing is
    logged by the loop, nothing is saved, the page is not clicked and the
    ledger is the one that was passed in.  The call returns, whatever the
    fuel, and reports no like. *)
Theorem processUrl_without_quota (fuel : nat) (cfg : Config) (url : string)
    (l0 : Ledger) (p : Page) :
  DAILY_CAP cfg <= dayCount l0 ∨ TWEETS_TO_LIKE cfg <= 0 →
  let r := snd (processUrl fuel cfg url l0 p) in
  events r = [] ∧ processed r = l0
  ∧ clicks (page r) = clicks p
  ∧ ∃ res : UrlResult,
      fst (processUrl fuel cfg url l0 p) = Some res ∧ liked_here res = 0.
Proof.
  intros Hq.
  destruct (processUrl_cases fuel cfg url l0 p)
    as [(p' & -> & Hc & _) | (urls & p' & _ & [Hc _] & ->)]; cbn [fst snd].
  { repeat split; try done. by eexists. }
  rewrite act_loop_no_quota.
  - cbn [fst snd]. repeat split; try done. by eexists.
  - unfold quota_left. cbn [likedCount processed start_run].
    apply andb_false_iff. destruct Hq as [Hq | Hq]; [right | left];
      by apply Z.ltb_ge.
Qed.

Lemma processUrl_without_quota_witness :
  events (snd (processUrl 0 Scenario.config "https://x.com/u"
                 {| liked := ∅; dayCount := 10; dayStart := "2026-11-03" |}
                 Scenario.site)) = [].
Proof.
  apply (processUrl_without_quota 0 Scenario.config "https://x.com/u"
           {| liked := ∅; dayCount := 10; dayStart := "2026-11-03" |}
           Scenario.site).
  left. simpl. lia.
Defined.

Lemma quiet_calls (p : Page) :
  on_scroll (snd (isRateLimited p)) = on_scroll p
  ∧ on_scroll (reload p) = on_scroll p.
Proof.
  unfold isRateLimited, reload.
  by destruct (on_probe p), (on_goto p) as [| [d h login | m] rest].
Qed.

(** X12. When the navigation to a target throws, or the page it loads is
    a login wall, or it is rate limited and still is after the reload,
    [processUrl] returns [{ success: false, liked: 0 }] before any scan: the
    page is not scrolled, no URL is collected or dispatched, nothing is
    saved, the page is not clicked, and the ledger is the one that was
    passed in. *)
Theorem processUrl_given_up (fuel : nat) (cfg : Config) (url : string)
    (l0 : Ledger) (p : Page) :
  gives_up url p = true →
  let r := snd (processUrl fuel cfg url l0 p) in
  fst (processUrl fuel cfg url l0 p) = Some {| success := false; liked_here := 0 |}
  ∧ tweetUrls r = [] ∧ events r = [] ∧ processed r = l0
  ∧ on_scroll (page r) = on_scroll p
  ∧ clicks (page r) = clicks p.
Proof.
  unfold gives_up, processUrl.
  pose proof (robustGoto_clicks url p) as Hg.
  destruct (robustGoto_landed url p) as [_ Hs].
  destruct (robustGoto url p) as [[b | e] p1]; cbn [snd] in Hg, Hs; [| done].
  destruct (isLoginPage p1); [done |]. cbn [orb].
  pose proof (isRateLimited_clicks p1) as H1.
  destruct (quiet_calls p1) as [Hs1 _].
  destruct (isRateLimited p1) as [[|] p2]; cbn [snd andb] in *; [| done].
  pose proof (isRateLimited_clicks (reload p2)) as H2.
  destruct (quiet_calls (reload p2)) as [Hs2 _].
  destruct (quiet_calls p2) as [_ Hs3].
  rewrite reload_clicks in H2.
  destruct (isRateLimited (reload p2)) as [[|] p3]; cbn [fst snd] in *; [| done].
  intros _. cbn [start_run tweetUrls events processed page].
  repeat split; congruence.
Qed.

Lemma processUrl_given_up_witness :
  let p := {| dom := []; scrollHeight := 0; login_wall := false;
              on_goto := [NavLoaded Scenario.timeline 1000 true];
              on_scroll := []; on_probe := []; on_click := [];
              visited := []; clicks := 0;
              on_locate := Scenario.strict; landed := 0 |} in
  events (snd (processUrl 10 Scenario.config "https://x.com/u" Scenario.today p)) = []
  ∧ processed (snd (processUrl 10 Scenario.config "https://x.com/u" Scenario.today p))
    = Scenario.today.
Proof.
  intros p.
  destruct (processUrl_given_up 10 Scenario.config "https://x.com/u" Scenario.today p)
    as (_ & _ & H1 & H2 & _); [reflexivity |].
  split; [exact H1 | exact H2].
Defined.

(** ** Run orchestrator: a loop that does not end *)

Lemma scrollBy_idle (p : Page) : on_scroll p = [] → scrollBy p = p.
Proof. unfold scrollBy. by intros ->. Qed.

Lemma scan_steps_idle (k : nat) (maxScan : Z) (s : Scan) (p : Page) :
  on_scroll p = [] → snd (scan_steps k maxScan s p) = p.
Proof.
  intros H. induction k as [| k IH]; [done |]. rewrite scan_steps_S.
  destruct (scan_step_heights maxScan (fst (scan_steps k maxScan s p))
              (snd (scan_steps k maxScan s p))) as (-> & _).
  rewrite IH. by apply scrollBy_idle.
Qed.

Lemma collectTweetIds_idle (maxScan : Z) (p : Page) (urls : list string) (p' : Page) :
  on_scroll p = [] → collectTweetIds maxScan p = Some (urls, p') → p' = p.
Proof.
  intros H. destruct (collectTweetIds_scan maxScan p) as [k ->].
  intros [= _ <-]. by apply scan_steps_idle.
Qed.

(** X13. The act loop has no way out when the quota is not used up and
    the page has nothing new: if both caps leave room, some URL was
    collected, every URL collected so far and every URL a new scan finds is
    in the ledger or was attempted, and scrolling loads nothing more, then
    the [while] loop scrolls and scans again for ever.  Whatever the fuel,
    the loop is cut before it ends, with the ledger, the counter, the page
    and the events as they were: [processUrl] does not return. *)
Theorem act_loop_starves (fuel : nat) (cfg : Config) (r : Run)
    (urls : list string) (p' : Page) :
  quota_left cfg r = true →
  tweetUrls r ≠ [] →
  on_scroll (page r) = [] →
  collectTweetIds (MAX_SCAN cfg) (page r) = Some (urls, p') →
  (∀ u : string, u ∈ tweetUrls r ++ urls →
     is_liked (processed r) (statusIdOf u) = true ∨ u ∈ processedUrls r) →
  fst (act_loop fuel cfg r) = OutOfFuel
  ∧ processed (snd (act_loop fuel cfg r)) = processed r
  ∧ likedCount (snd (act_loop fuel cfg r)) = likedCount r
  ∧ events (snd (act_loop fuel cfg r)) = events r
  ∧ page (snd (act_loop fuel cfg r)) = page r.
Proof.
  revert r. induction fuel as [| fuel IH]; intros r Hq Hne Hidle Hscan Hall;
    cbn [act_loop]; rewrite Hq;
    assert (Hlen : (0 <? length (tweetUrls r))%nat = true)
      by (by destruct (tweetUrls r));
    rewrite Hlen; cbn [andb]; [done |].
  assert (Hrem : remaining r = []).
  { apply filter_nil_of_forall. intros u Hu.
    destruct (Hall u) as [Hl | Hp]; [apply elem_of_app; by left | by rewrite Hl |].
    rewrite (bool_decide_eq_true_2 _ Hp). apply andb_false_r. }
  rewrite Hrem. cbn [length Nat.eqb].
  unfold recollect. rewrite (scrollBy_idle _ Hidle), Hscan.
  pose proof (collectTweetIds_idle _ _ _ _ Hidle Hscan) as ->.
  match goal with |- context [act_loop fuel cfg ?x] => apply (IH x) end;
    cbn [processed likedCount processedUrls tweetUrls page events];
    try done.
  - by destruct (tweetUrls r).
  - intros u Hu. apply Hall.
    rewrite !elem_of_app in Hu. rewrite elem_of_app.
    destruct Hu as [[Hu | Hu%elem_of_filter_bool] | Hu]; tauto.
Qed.

Lemma act_loop_starves_witness :
  let l := {| liked := {[ "1" := true; "2" := true ]};
              dayCount := 2; dayStart := "2026-11-03" |} in
  let d := [Scenario.tweet "/u/status/1" true; Scenario.tweet "/u/status/2" true] in
  let r := start_run l ["https://x.com/u/status/1"; "https://x.com/u/status/2"]
             (Scenario.showing d) in
  fst (act_loop 40 Scenario.config r) = OutOfFuel
  ∧ events (snd (act_loop 40 Scenario.config r)) = [].
Proof.
  intros l d r.
  destruct (act_loop_starves 40 Scenario.config r
              ["https://x.com/u/status/1"; "https://x.com/u/status/2"]
              (Scenario.showing d))
    as (H1 & _ & _ & H2 & _).
  - reflexivity.
  - discriminate.
  - reflexivity.
  - reflexivity.
  - intros u Hu. left. cbn in Hu.
    repeat (apply elem_of_cons in Hu as [-> | Hu]; [reflexivity |]).
    by apply elem_of_nil in Hu.
  - split; [exact H1 | exact H2].
Defined.

(** The same from the entry point: a target whose visible tweets are all
    in the ledger, with room left under both caps. *)
Example processUrl_starves_on_known_timeline :
  let l := {| liked := {[ "1" := true; "2" := true ]};
              dayCount := 2; dayStart := "2026-11-03" |} in
  let d := [Scenario.tweet "/u/status/1" true; Scenario.tweet "/u/status/2" true] in
  let p := {| dom := []; scrollHeight := 0; login_wall := false;
              on_goto := [NavLoaded d 1000 false];
              on_scroll := []; on_probe := []; on_click := [];
              visited := []; clicks := 0;
              on_locate := Scenario.strict; landed := 0 |} in
  fst (processUrl 40 Scenario.config "https://x.com/u" l p) = None
  ∧ events (snd (processUrl 40 Scenario.config "https://x.com/u" l p)) = [].
Proof. by vm_compute. Qed.

(** ** The loop over targets *)

(** What every target preserves of the ledger, the launch preserves. *)
Section RunTargets.

Variable cfg : Config.
Variable P : Ledger → Prop.

Hypothesis P_target :
  ∀ (fuel : nat) (url : string) (l : Ledger) (p : Page),
    P l → P (processed (snd (processUrl fuel cfg url l p))).

Lemma run_targets_keeps (fuel : nat) (urls : list string) (l0 : Ledger) (p : Page) :
  P l0 → P (fst (fst (run_targets fuel cfg urls l0 p))).
Proof.
  revert l0 p. induction urls as [| url urls IH]; intros l0 p H0;
    cbn [run_targets]; [done |].
  pose proof (P_target fuel url l0 p H0) as H1.
  destruct (dayCount _ >=? DAILY_CAP cfg); [done |].
  specialize (IH _ (page (snd (processUrl fuel cfg url l0 p))) H1).
  by destruct (run_targets fuel cfg urls _ _) as [[l p'] evs].
Qed.

End RunTargets.

(** X14. A launch never forgets a like and ends on today's ledger:
    whatever the file held, the stored day included, every identifier that
    was marked liked in it is marked liked in the ledger the launch ends
    with, and that ledger carries today's date. *)
Theorem main_keeps_likes (fuel : nat) (cfg : Config) (f : LedgerFile)
    (iso_now : string) (urls : list string) (p : Page) :
  let l := fst (fst (main fuel cfg f iso_now urls p)) in
  dayStart l = today_of iso_now
  ∧ ∀ id : string, liked (read_ledger f) !! id = Some true → liked l !! id = Some true.
Proof.
  unfold main.
  apply (run_targets_keeps cfg
           (λ l, dayStart l = today_of iso_now
                 ∧ ∀ id : string, liked (read_ledger f) !! id = Some true →
                                  liked l !! id = Some true)).
  - intros fuel' url l p' [Hday Hkeep]. split.
    + apply (processUrl_holds cfg (same_day (today_of iso_now)));
        [apply same_day_item | by split; [| constructor]].
    + intros id Hid.
      destruct (processUrl_holds cfg (gains_inv l) (gains_inv_item cfg l)
                  fuel' url l p' (λ id, or_introl eq_refl) id) as [-> | [-> _]];
        [by apply Hkeep | done].
  - split; [apply loadProcessed_dayStart |].
    intros id Hid. unfold loadProcessed. by case_bool_decide.
Qed.

(** X15. Across all targets of a launch the daily cap holds, also over
    the change of day: if the stored ledger is of another day, or is of
    today and within the cap, then the ledger the launch ends with is within
    the cap, and so is every ledger that any target assigned or saved on the
    way. *)
Theorem main_respects_daily_cap (fuel : nat) (cfg : Config) (f : LedgerFile)
    (iso_now : string) (urls : list string) (p : Page) :
  0 <= DAILY_CAP cfg →
  dayStart (read_ledger f) ≠ today_of iso_now
  ∨ dayCount (read_ledger f) <= DAILY_CAP cfg →
  dayCount (fst (fst (main fuel cfg f iso_now urls p))) <= DAILY_CAP cfg
  ∧ ∀ (target : list Event) (l : Ledger),
      target ∈ snd (main fuel cfg f iso_now urls p) →
      Assigned l ∈ target ∨ Saved l ∈ target →
      dayCount l <= DAILY_CAP cfg.
Proof.
  intros Hcap Hstored. unfold main.
  assert (H0 : dayCount (loadProcessed f iso_now) <= DAILY_CAP cfg).
  { unfold loadProcessed. case_bool_decide as Hd; [done |].
    by destruct Hstored. }
  pose proof (run_targets_within_cap fuel cfg (slice0 (ROWS_PER_LAUNCH cfg) urls)
                _ p H0) as H.
  destruct (run_targets _ _ _ _ _) as [[l p'] evs]. destruct H as [Hl Hevs].
  split; [done |]. cbn [snd]. intros target l' Ht Hl'.
  rewrite Forall_forall in Hevs. specialize (Hevs _ Ht).
  rewrite Forall_forall in Hevs.
  destruct Hl' as [Hl' | Hl']; apply (Hevs _ Hl').
Qed.

Lemma main_respects_daily_cap_witness :
  dayCount (fst (fst (main 10 Scenario.config (FileJson Scenario.yesterday)
                        "2026-11-03T08:00:00.000Z" ["https://x.com/u"]
                        Scenario.site))) <= 10.
Proof.
  apply (main_respects_daily_cap 10 Scenario.config (FileJson Scenario.yesterday)
           "2026-11-03T08:00:00.000Z" ["https://x.com/u"] Scenario.site).
  - simpl. lia.
  - left. vm_compute. discriminate.
Defined.

Lemma run_targets_length (fuel : nat) (cfg : Config) (urls : list string)
    (l0 : Ledger) (p : Page) :
  (length (snd (run_targets fuel cfg urls l0 p)) ≤ length urls)%nat
  ∧ (urls ≠ [] → (1 ≤ length (snd (run_targets fuel cfg urls l0 p)))%nat).
Proof.
  revert l0 p. induction urls as [| url urls IH]; intros l0 p; cbn [run_targets];
    [by split |].
  destruct (dayCount _ >=? DAILY_CAP cfg); [cbn; split; lia |].
  specialize (IH (processed (snd (processUrl fuel cfg url l0 p)))
                (page (snd (processUrl fuel cfg url l0 p)))).
  destruct (run_targets fuel cfg urls _ _) as [[l p'] evs]. cbn in *.
  split; lia.
Qed.

(** X16. With [ROWS_PER_LAUNCH] not negative a launch opens at most that
    many targets, and never more than the input lists.  The first target is
    opened without a look at the daily cap: with at least one row allowed
    and a URL in the input, one target is opened whatever the ledger
    holds. *)
Theorem main_opens_at_most_rows (fuel : nat) (cfg : Config) (f : LedgerFile)
    (iso_now : string) (urls : list string) (p : Page) :
  0 <= ROWS_PER_LAUNCH cfg →
  let opened := length (snd (main fuel cfg f iso_now urls p)) in
  Z.of_nat opened <= ROWS_PER_LAUNCH cfg
  ∧ (opened ≤ length urls)%nat
  ∧ (1 <= ROWS_PER_LAUNCH cfg → urls ≠ [] → (1 ≤ opened)%nat).
Proof.
  intros Hrows. cbv zeta. unfold main, slice0.
  destruct (ROWS_PER_LAUNCH cfg <? 0) eqn:Hneg; [apply Z.ltb_lt in Hneg; lia |].
  destruct (run_targets_length fuel cfg (take (Z.to_nat (ROWS_PER_LAUNCH cfg)) urls)
              (loadProcessed f iso_now) p) as [Hle Hone].
  rewrite length_take in Hle. split; [lia |]. split; [lia |].
  intros H1 Hne. apply Hone. destruct urls as [| u urls]; [done |].
  destruct (Z.to_nat (ROWS_PER_LAUNCH cfg)) eqn:E; [lia | done].
Qed.

Lemma main_opens_at_most_rows_witness :
  (length (snd (main 10 Scenario.config (FileJson Scenario.yesterday)
                  "2026-11-02T08:00:00.000Z"
                  ["https://x.com/u"; "https://x.com/v"] Scenario.site)) ≤ 2)%nat
  ∧ (1 ≤ length (snd (main 10 Scenario.config (FileJson Scenario.yesterday)
                        "2026-11-02T08:00:00.000Z"
                        ["https://x.com/u"; "https://x.com/v"] Scenario.site)))%nat.
Proof.
  destruct (main_opens_at_most_rows 10 Scenario.config (FileJson Scenario.yesterday)
              "2026-11-02T08:00:00.000Z"
              ["https://x.com/u"; "https://x.com/v"] Scenario.site)
    as (_ & H1 & H2); [simpl; lia |].
  split; [exact H1 | apply H2; [simpl; lia | discriminate]].
Defined.

(** ** Identifiers *)

Lemma split_go_nonempty (sep : string) (skip : nat) (cur s : string) :
  Js.split_go sep skip cur s ≠ [].
Proof.
  revert skip cur. induction s as [| c s IH]; intros skip cur; [done |].
  cbn [Js.split_go]. destruct skip as [| k]; [| apply IH].
  destruct (String.prefix sep (String c s)); [done | apply IH].
Qed.

(** A split at a non-empty separator has a second piece exactly when the
    separator occurs. *)
Lemma split_go_second (c0 : ascii) (sep cur s : string) :
  Js.split_go (String c0 sep) 0 cur s !! 1%nat = None
  ↔ Js.includes (String c0 sep) s = false.
Proof.
  revert cur. induction s as [| c s IH]; intros cur; [done |].
  cbn [Js.split_go Js.includes].
  destruct (String.prefix (String c0 sep) (String c s)); [| apply IH].
  cbn [orb lookup list_lookup]. split; [| done].
  destruct (Js.split_go (String c0 sep) (String.length (String c0 sep) - 1) "" s)
    eqn:E; [by apply split_go_nonempty in E | done].
Qed.

(** X17. A URL has no identifier exactly when it does not contain
    "/status/"; every URL that contains it has one, possibly empty. *)
Theorem statusIdOf_none_iff (url : string) :
  statusIdOf url = None ↔ Js.includes "/status/" url = false.
Proof.
  unfold statusIdOf, Js.split.
  rewrite <- (split_go_second "/" "status/" "" url).
  destruct (Js.split_go "/status/" 0 "" url !! 1%nat) as [piece |]; [| done].
  cbn [mbind option_bind]. split; [| done].
  destruct (Js.split_go "?" 0 "" piece) eqn:E; [by apply split_go_nonempty in E | done].
Qed.

Lemma take_digits_all (s : string) : Js.all_digits (Js.take_digits s) = true.
Proof.
  induction s as [| c s IH]; [done |]. cbn [Js.take_digits].
  destruct (Js.is_digit c) eqn:Hc; [| done].
  cbn [Js.all_digits]. by rewrite Hc, IH.
Qed.

Lemma match_status_digits_digits (s id : string) :
  Js.match_status_digits s = Some id → Js.all_digits id = true ∧ id ≠ "".
Proof.
  induction s as [| c s IH]; [done |]. cbn [Js.match_status_digits].
  destruct (String.prefix "/status/" (String c s)); [| done].
  destruct (Js.take_digits _) as [| d ds] eqn:Et; [done |].
  intros [= <-]. split; [| done]. rewrite <- Et. apply take_digits_all.
Qed.

Lemma head_omap_Some {A B} (f : A → option B) (l : list A) (y : B) :
  head (omap f l) = Some y → ∃ x : A, x ∈ l ∧ f x = Some y.
Proof.
  induction l as [| a l IH]; [done |]. cbn [omap list_omap].
  destruct (f a) as [b |] eqn:Ha.
  - intros [= <-]. exists a. split; [apply list_elem_of_here | done].
  - intros H. destruct (IH H) as (x & Hx & Hfx).
    exists x. split; [by apply list_elem_of_further | done].
Qed.

(** X18. What [findTweetId] returns is a tweet number: a non-empty string
    of decimal digits, the run of digits that follows "/status/" in the
    [href] attribute of a status link of the element or of the tweet around
    it.  Path segments after the number never get into it. *)
Theorem findTweetId_digits (tweetElement : Element) (id : string) :
  findTweetId tweetElement = Some id →
  Js.all_digits id = true ∧ id ≠ ""
  ∧ ∃ a : Anchor,
      (a ∈ anchors tweetElement
       ∨ ∃ around : list Anchor, ancestor_tweet tweetElement = Some around ∧ a ∈ around)
      ∧ status_anchor a = true
      ∧ Js.match_status_digits (attr_href a) = Some id.
Proof.
  unfold findTweetId. intros H.
  assert (Hfound : ∃ a : Anchor,
            (a ∈ anchors tweetElement
             ∨ ∃ around : list Anchor,
                 ancestor_tweet tweetElement = Some around ∧ a ∈ around)
            ∧ status_anchor a = true
            ∧ Js.match_status_digits (attr_href a) = Some id).
  { destruct (List.filter status_anchor (anchors tweetElement)) as [| a l] eqn:Hf.
    - apply head_omap_Some in H as (a & [Ha Hs]%elem_of_filter_bool & Hm).
      exists a. split; [| done].
      destruct (is_tweet tweetElement); [by left |].
      destruct (ancestor_tweet tweetElement) as [around |]; [right; eauto | by left].
    - assert (Ha : a ∈ List.filter status_anchor (anchors tweetElement))
        by (rewrite Hf; apply list_elem_of_here).
      apply elem_of_filter_bool in Ha as [Ha Hs].
      destruct (Js.match_status_digits (attr_href a)) as [d |] eqn:Hd.
      + injection H as <-. exists a. auto.
      + apply head_omap_Some in H as (a' & [Ha' Hs']%elem_of_filter_bool & Hm).
        exists a'. split; [| done].
        destruct (is_tweet tweetElement); [by left |].
        destruct (ancestor_tweet tweetElement) as [around |]; [right; eauto | by left]. }
  destruct Hfound as (a & Hwhere & Hs & Hm).
  destruct (match_status_digits_digits _ _ Hm). eauto 10.
Qed.

Lemma findTweetId_digits_witness :
  findTweetId (Scenario.tweet "/u/status/1790000000000000001/photo/1" false)
  = Some "1790000000000000001"
  ∧ Js.all_digits "1790000000000000001" = true.
Proof.
  split; [reflexivity |].
  apply (findTweetId_digits
           (Scenario.tweet "/u/status/1790000000000000001/photo/1" false)
           "1790000000000000001").
  reflexivity.
Defined.

(** ** Delays *)

(** X19. [randomBetween(min, max)] on integers with [min <= max] is an
    integer between [min] and [max], both included, whatever
    [Math.random()] draws (in exact arithmetic): a pause or a scroll amount
    asked for between two integers stays between them. *)
Theorem randomBetween_integer_bounds (rnd : Q) (lo hi : Z) :
  (0 <= rnd)%Q → (rnd < 1)%Q → lo <= hi →
  ∃ k : Z,
    lo <= k <= hi
    ∧ (randomBetween rnd (inject_Z lo) (inject_Z hi) == inject_Z k)%Q.
Proof.
  intros H0 H1 Hle. unfold randomBetween.
  set (x := (rnd * (inject_Z hi - inject_Z lo + 1))%Q).
  assert (Hspan : (0 <= inject_Z hi - inject_Z lo)%Q).
  { rewrite Zle_Qle in Hle. lra. }
  assert (Hx0 : (0 <= x)%Q).
  { subst x. apply Qmult_le_0_compat; [done | lra]. }
  assert (Hx1 : (x < inject_Z (hi - lo + 1))%Q).
  { subst x.
    assert (E : (inject_Z (hi - lo + 1) == inject_Z hi - inject_Z lo + 1)%Q).
    { unfold Z.sub. rewrite !inject_Z_plus, inject_Z_opp.
      change (inject_Z 1) with 1%Q. ring. }
    rewrite E. nra. }
  assert (Hlo : 0 <= Qfloor x).
  { change 0 with (Qfloor 0). by apply Qfloor_resp_le. }
  assert (Hhi : Qfloor x <= hi - lo).
  { assert (Qfloor x < hi - lo + 1); [| lia].
    rewrite Zlt_Qlt. eapply Qle_lt_trans; [apply Qfloor_le | done]. }
  exists (Qfloor x + lo). split; [lia |]. by rewrite inject_Z_plus.
Qed.

Lemma randomBetween_integer_bounds_witness :
  ∃ k : Z, 800 <= k <= 2000 ∧ (randomBetween (1 # 2) 800 2000 == inject_Z k)%Q.
Proof.
  apply (randomBetween_integer_bounds (1 # 2) 800 2000).
  - by vm_compute.
  - by vm_compute.
  - lia.
Defined.
